(** * Storage-layout resolver of [src/solidity/decodeInfo.js]

    A shallow embedding of the type resolver ([parseType] and the builders it
    dispatches to) together with the properties of its packing arithmetic and
    of its failure behaviour.

    Conventions of the embedding.
    - JavaScript strings are [string]s: sequences of code units below 256.
    - JavaScript numbers are modelled exactly ([JsNumber.number]): a finite
      value is a rational, next to [NaN] and the two infinities.  The two
      signed zeros are identified (JavaScript's [===] identifies them too),
      and no rounding is applied, so the model agrees with IEEE-754 doubles
      as long as the integers read from the type strings stay below 2^53.
    - A call either returns a value, throws, or exhausts the recursion budget
      ([outcome]); [console.log] is a side channel and is not modelled. *)

From Stdlib Require Import ZArith QArith Qround Qreduction.
From Stdlib Require Import String Ascii List Bool Lia Lqa.
From Stdlib Require DecimalString DecimalFacts DecimalNat.
Import ListNotations.

Set Warnings "-register-all".
Local Open Scope string_scope.

(* ===================================================================== *)
(** ** JavaScript numbers *)
(* ===================================================================== *)

Module JsNumber.

Inductive number : Type :=
| NaN
| Infinity (negative : bool)
| Finite (q : Q).

(** Finite results are kept in lowest terms, so that equal numbers are equal
    terms. *)
Definition fin (q : Q) : number := Finite (Qred q).

Definition of_Z (z : Z) : number := Finite (inject_Z z).
Definition of_nat (n : nat) : number := of_Z (Z.of_nat n).

Definition Qneg (q : Q) : bool := negb (Qle_bool 0 q).
Definition Qzero (q : Q) : bool := Qeq_bool q 0.

(** [x / y] *)
Definition div (x y : number) : number :=
  match x, y with
  | NaN, _ | _, NaN => NaN
  | Infinity _, Infinity _ => NaN
  | Infinity s, Finite b => Infinity (xorb s (Qneg b))
  | Finite _, Infinity _ => Finite 0
  | Finite a, Finite b =>
      if Qzero b then (if Qzero a then NaN else Infinity (Qneg a))
      else fin (a / b)
  end.

(** [x * y] *)
Definition mul (x y : number) : number :=
  match x, y with
  | NaN, _ | _, NaN => NaN
  | Infinity s, Infinity t => Infinity (xorb s t)
  | Infinity s, Finite b => if Qzero b then NaN else Infinity (xorb s (Qneg b))
  | Finite a, Infinity t => if Qzero a then NaN else Infinity (xorb (Qneg a) t)
  | Finite a, Finite b => fin (a * b)
  end.

(** [x + y] *)
Definition add (x y : number) : number :=
  match x, y with
  | NaN, _ | _, NaN => NaN
  | Infinity s, Infinity t => if Bool.eqb s t then Infinity s else NaN
  | Infinity s, Finite _ => Infinity s
  | Finite _, Infinity t => Infinity t
  | Finite a, Finite b => fin (a + b)
  end.

(** [x < y]: false as soon as one side is [NaN]. *)
Definition lt (x y : number) : bool :=
  match x, y with
  | NaN, _ | _, NaN => false
  | Infinity s, Infinity t => s && negb t
  | Infinity s, Finite _ => s
  | Finite _, Infinity t => negb t
  | Finite a, Finite b => negb (Qle_bool b a)
  end.

(** [x > y] *)
Definition gt (x y : number) : bool := lt y x.

(** [Math.floor] and [Math.ceil] *)
Definition floor (x : number) : number :=
  match x with
  | Finite q => of_Z (Qfloor q)
  | _ => x
  end.

Definition ceil (x : number) : number :=
  match x with
  | Finite q => of_Z (Qceiling q)
  | _ => x
  end.

(** [isNaN] *)
Definition isNaN (x : number) : bool :=
  match x with NaN => true | _ => false end.

(** [1 <= x], the order used to state lower bounds on slot counts. *)
Definition ge1 (x : number) : Prop :=
  match x with
  | NaN => False
  | Infinity s => s = false
  | Finite q => (1 <= q)%Q
  end.

(** [0 < x] *)
Definition positive (x : number) : Prop :=
  match x with
  | NaN => False
  | Infinity s => s = false
  | Finite q => (0 < q)%Q
  end.

(** [0 <= x] *)
Definition nonneg (x : number) : Prop :=
  match x with
  | NaN => False
  | Infinity s => s = false
  | Finite q => (0 <= q)%Q
  end.

End JsNumber.

Import JsNumber.

Declare Scope js_scope.
Delimit Scope js_scope with js.
Notation "x / y" := (div x y) : js_scope.
Notation "x * y" := (mul x y) : js_scope.
Notation "x + y" := (add x y) : js_scope.
Notation "x <? y" := (lt x y) : js_scope.
Notation "x >? y" := (gt x y) : js_scope.
Notation "# z" := (of_Z z) (at level 1, format "# z") : js_scope.

(* ===================================================================== *)
(** ** JavaScript strings *)
(* ===================================================================== *)

Module JsString.

Definition is_digit (c : ascii) : bool :=
  let n := nat_of_ascii c in (48 <=? n)%nat && (n <=? 57)%nat.

(** [s.indexOf(c) !== -1] for a one-character [c] *)
Fixpoint contains (c : ascii) (s : string) : bool :=
  match s with
  | EmptyString => false
  | String a s' => if Ascii.eqb a c then true else contains c s'
  end.

(** [s.split(c)[0]]: what precedes the first [c] (all of [s] without one) *)
Fixpoint before_first (c : ascii) (s : string) : string :=
  match s with
  | EmptyString => EmptyString
  | String a s' => if Ascii.eqb a c then EmptyString
                   else String a (before_first c s')
  end.

(** [s.indexOf(p) === 0] *)
Fixpoint starts_with (p s : string) : bool :=
  match p with
  | EmptyString => true
  | String a p' =>
      match s with
      | EmptyString => false
      | String b s' => Ascii.eqb a b && starts_with p' s'
      end
  end.

(** the suffix of [s] from position [n] on *)
Fixpoint drop (n : nat) (s : string) : string :=
  match n, s with
  | O, _ => s
  | S n', String _ s' => drop n' s'
  | S _, EmptyString => EmptyString
  end.

(** [s.replace(/[0-9]+/g, r)]: every maximal run of digits becomes [r];
    [in_run] tells that the previous code unit was a digit. *)
Fixpoint replace_digit_runs_from (in_run : bool) (r s : string) : string :=
  match s with
  | EmptyString => EmptyString
  | String a s' =>
      if is_digit a
      then (if in_run then replace_digit_runs_from true r s'
            else r ++ replace_digit_runs_from true r s')
      else String a (replace_digit_runs_from false r s')
  end.

Definition replace_digit_runs (r s : string) : string :=
  replace_digit_runs_from false r s.

(** [s.replace(p, r)] for a non-empty string pattern [p] and a replacement
    without [$]: the first occurrence of [p] becomes [r]. *)
Fixpoint replace_first (p r s : string) : string :=
  if starts_with p s then r ++ drop (String.length p) s
  else match s with
       | EmptyString => EmptyString
       | String a s' => String a (replace_first p r s')
       end.

(** *** [parseInt] with the radix left out *)

(** White space and line terminators among the code units below 256:
    TAB, LF, VT, FF, CR, SP and NBSP. *)
Definition is_white_space (c : ascii) : bool :=
  let n := nat_of_ascii c in
  ((9 <=? n)%nat && (n <=? 13)%nat) || (n =? 32)%nat || (n =? 160)%nat.

Fixpoint skip_white_space (s : string) : string :=
  match s with
  | String a s' => if is_white_space a then skip_white_space s' else s
  | EmptyString => s
  end.

(** value of a code unit as a digit: [0-9], then [a-z] and [A-Z] from ten *)
Definition digit_value (c : ascii) : option Z :=
  let n := nat_of_ascii c in
  if (48 <=? n)%nat && (n <=? 57)%nat then Some (Z.of_nat (n - 48))
  else if (97 <=? n)%nat && (n <=? 122)%nat then Some (Z.of_nat (n - 87))
  else if (65 <=? n)%nat && (n <=? 90)%nat then Some (Z.of_nat (n - 55))
  else None.

(** Reads the longest prefix of radix-[R] digits; [acc] is [None] until a
    first digit has been read. *)
Fixpoint read_digits (R : Z) (acc : option Z) (s : string) : option Z :=
  match s with
  | EmptyString => acc
  | String a s' =>
      match digit_value a with
      | Some d =>
          if (d <? R)%Z
          then read_digits R (Some (R * match acc with Some n => n | None => 0 end + d)%Z) s'
          else acc
      | None => acc
      end
  end.

Definition parseInt (s : string) : number :=
  let s := skip_white_space s in
  let '(negative, s) :=
    match s with
    | String "-" s' => (true, s')
    | String "+" s' => (false, s')
    | _ => (false, s)
    end in
  let '(R, s) :=
    if starts_with "0x" s || starts_with "0X" s then (16%Z, drop 2 s)
    else (10%Z, s) in
  match read_digits R None s with
  | None => NaN
  | Some n => of_Z (if negative then - n else n)
  end.

(** *** The two regular expressions of the resolver *)

(** [.] matches any code unit but a line terminator. *)
Definition is_line_terminator (c : ascii) : bool :=
  let n := nat_of_ascii c in (n =? 10)%nat || (n =? 13)%nat.

(** The optional qualifier group followed by the end anchor: the rest of the
    input is one of the four qualifiers, or empty. *)
Definition location_opt_end (s : string) : bool :=
  String.eqb s " storage ref" || String.eqb s " storage pointer"
  || String.eqb s " memory" || String.eqb s " calldata"
  || String.eqb s "".

(** The tail of the array pattern, from its lazy group on (the lazy group,
    a closing bracket, the optional qualifier and the end anchor), matched at
    the head of [t]: the lazy group grows one code unit at a time until a
    closing bracket is followed by an optional qualifier and the end of the
    input.  The result is the text of the lazy group. *)
Fixpoint lazy_until_bracket (t : string) : option string :=
  match t with
  | EmptyString => None
  | String a t' =>
      if Ascii.eqb a "]" && location_opt_end t' then Some EmptyString
      else if is_line_terminator a then None
      else option_map (String a) (lazy_until_bracket t')
  end.

(** The whole array pattern matched at the head of [r]: the greedy group is
    tried longest first and gives code units back until an opening bracket
    follows. *)
Fixpoint array_match_here (r : string) : option (string * string) :=
  match r with
  | EmptyString => None
  | String a r' =>
      let empty_group :=
        if Ascii.eqb a "[" then
          option_map (fun m2 => (EmptyString, m2)) (lazy_until_bracket r')
        else None in
      if is_line_terminator a then empty_group
      else match array_match_here r' with
           | Some (m1, m2) => Some (String a m1, m2)
           | None => empty_group
           end
  end.

(** [type.match(...)] in [Array], whose pattern is: a greedy group of any
    code units, an opening bracket, a lazy group of any code units, a closing
    bracket, optionally one of the qualifiers storage ref, storage pointer,
    memory and calldata (each after one space), and the end of the input.
    The result holds the captures [match[1]] and [match[2]] of the leftmost
    match. *)
Fixpoint array_match (s : string) : option (string * string) :=
  match array_match_here s with
  | Some m => Some m
  | None => match s with
            | EmptyString => None
            | String _ s' => array_match s'
            end
  end.

(** The tail of the struct pattern (a lazy group, the optional qualifier and
    the end anchor) at the head of [t]; the result is the text of the lazy
    group. *)
Fixpoint lazy_until_end (t : string) : option string :=
  if location_opt_end t then Some EmptyString
  else match t with
       | EmptyString => None
       | String a t' =>
           if is_line_terminator a then None
           else option_map (String a) (lazy_until_end t')
       end.

(** [type.match(...)] in [Struct], whose pattern is: the seven code units
    of the word struct and a space, a lazy group of any code units,
    optionally one of the four qualifiers, and the end of the input.  The
    result is the capture [match[1]] of the leftmost match. *)
Fixpoint struct_match (s : string) : option string :=
  match (if starts_with "struct " s then lazy_until_end (drop 7 s) else None) with
  | Some m1 => Some m1
  | None => match s with
            | EmptyString => None
            | String _ s' => struct_match s'
            end
  end.

End JsString.

Import JsString.

(* ===================================================================== *)
(** ** Declarations, values and outcomes *)
(* ===================================================================== *)

(** [dec.attributes]: the declared name and, for a struct member, its type
    string.  A field the node does not carry reads as [undefined] ([None]). *)
Module Attr.
Record t : Type := make { name : option string; type : option string }.
End Attr.

(** A node of the syntax tree: [dec.name] is the kind of the node (such as
    StructDefinition), [dec.attributes] may be missing, [dec.children] is an
    array of nodes. *)
Inductive node : Type :=
  Node { name : string; attributes : option Attr.t; children : list node }.

(** [stateDefinitions], in the order in which [for (var k in ...)] visits
    its keys. *)
Definition stateDefinitions : Type := list node.

(** [arraySize] is the string dynamic or a number. *)
Inductive arraySize : Type :=
| dynamic
| sized (n : number).

(** The fields a builder adds to the three common ones. *)
Inductive extra (V : Type) : Type :=
| Plain
| OfArray (size : arraySize) (underlyingType : V)
| OfEnum (enum : node)
| OfStruct (members : list V).
Arguments Plain {V}.
Arguments OfArray {V}.
Arguments OfEnum {V}.
Arguments OfStruct {V}.

(** The object literal [decodeInfo] of each builder. *)
Record decodeInfo (V : Type) : Type := {
  storageSlots : number;
  storageBytes : number;
  typeName : string;
  more : extra V
}.
Arguments Build_decodeInfo {V}.
Arguments storageSlots {V}.
Arguments storageBytes {V}.
Arguments typeName {V}.
Arguments more {V}.

(** What the members of [Object.prototype] give back when the dispatcher
    reaches them: all are truthy and none has a [storageBytes] or a
    [storageSlots] field. *)
Inductive foreign : Type :=
| StringObject (s : string)   (* Object(type) *)
| ObjectTag                   (* the string [object Object] *)
| DispatchTable.              (* decodeInfos itself, from valueOf *)

(** Modelled from the spec: the constructors of [./types/*] ([UintType],
    [ArrayType], [StructType], ...) are not among the sources.  Following the
    data model of the specification (a descriptor carries [storageSlots],
    [storageBytes], its category and the fields of its variant), the object
    built by [new T(decodeInfo)] is modelled as the [decodeInfo] handed to
    the constructor. *)
Inductive value : Type :=
| null
| undefined
| false_
| other (f : foreign)
| descriptor (d : decodeInfo value).

Inductive outcome (A : Type) : Type :=
| Return (a : A)
| TypeError        (* a thrown TypeError *)
| OutOfFuel.       (* the recursion budget of the model is spent *)
Arguments Return {A}.
Arguments TypeError {A}.
Arguments OutOfFuel {A}.

Definition bind {A B : Type} (m : outcome A) (k : A -> outcome B) : outcome B :=
  match m with
  | Return a => k a
  | TypeError => TypeError
  | OutOfFuel => OutOfFuel
  end.

Notation "x <- m ;; k" := (bind m (fun x => k))
  (at level 61, m at next level, right associativity).

(** [!v] *)
Definition falsy (v : value) : bool :=
  match v with
  | null | undefined | false_ => true
  | other _ | descriptor _ => false
  end.

(** [v.storageBytes] and [v.storageSlots] where a number is expected: reading
    a field of [null] or [undefined] throws; a field that is not there reads
    [undefined], which every use below ([<], [*], [+=]) turns into [NaN]. *)
Definition read (field : decodeInfo value -> number) (v : value) : outcome number :=
  match v with
  | null | undefined => TypeError
  | false_ | other _ => Return NaN
  | descriptor d => Return (field d)
  end.

Definition storageBytes_of : value -> outcome number := read storageBytes.
Definition storageSlots_of : value -> outcome number := read storageSlots.

(* ===================================================================== *)
(** ** The resolver *)
(* ===================================================================== *)

Module DecodeInfo.

Local Open Scope js_scope.

(** A builder as the dispatcher calls it: [builder(type, stateDefinitions)]. *)
Definition builder : Type := string -> stateDefinitions -> outcome value.

(** The first statement of [Uint] (and of [Int]) is a conditional expression
    whose value is dropped: [type] is left as it was. *)
Definition Uint (type : string) : value :=
  let _ := if String.eqb type "uint" then "uint256" else type in
  let decodeInfo := {|
    storageSlots := #1;
    storageBytes := parseInt (replace_first "uint" "" type) / #8;
    typeName := "uint";
    more := Plain
  |} in
  descriptor decodeInfo.

Definition Int (type : string) : value :=
  let _ := if String.eqb type "int" then "int256" else type in
  let decodeInfo := {|
    storageSlots := #1;
    storageBytes := parseInt (replace_first "int" "" type) / #8;
    typeName := "int";
    more := Plain
  |} in
  descriptor decodeInfo.

Definition Address (type : string) : value :=
  let decodeInfo := {|
    storageSlots := #1;
    storageBytes := #20;
    typeName := "address";
    more := Plain
  |} in
  descriptor decodeInfo.

Definition Bool (type : string) : value :=
  let decodeInfo := {|
    storageSlots := #1;
    storageBytes := #1;
    typeName := "bool";
    more := Plain
  |} in
  descriptor decodeInfo.

Definition DynamicByteArray (type : string) : value :=
  let decodeInfo := {|
    storageSlots := #1;
    storageBytes := #32;
    typeName := "bytes";
    more := Plain
  |} in
  descriptor decodeInfo.

Definition FixedByteArray (type : string) : value :=
  let decodeInfo := {|
    storageSlots := #1;
    storageBytes := parseInt (replace_first "bytes" "" type);
    typeName := "bytesX";
    more := Plain
  |} in
  descriptor decodeInfo.

Definition String (type : string) : value :=
  let decodeInfo := {|
    storageSlots := #1;
    storageBytes := #32;
    typeName := "string";
    more := Plain
  |} in
  descriptor decodeInfo.

(** [match.length] is 4 whenever there is a match, so only [!match] can
    send [Array] to its first [return null]. *)
Definition Array (parseType : builder) (type : string)
    (stateDefinitions : stateDefinitions) : outcome value :=
  match array_match type with
  | None => Return null
  | Some (match1, match2) =>
      let arraySize :=
        if String.eqb match2 "" then dynamic else sized (parseInt match2) in
      underlyingType <- parseType match1 stateDefinitions ;;
      match underlyingType with
      | null => Return null
      | _ =>
          storageSlots <-
            match arraySize with
            | dynamic => Return #1
            | sized arraySize =>
                bytes <- storageBytes_of underlyingType ;;
                if bytes <? #32 then
                  let itemPerSlot := floor (#32 / bytes) in
                  Return (ceil (arraySize / itemPerSlot))
                else
                  slots <- storageSlots_of underlyingType ;;
                  Return (arraySize * slots)
            end ;;
          let decodeInfo := {|
            storageSlots := storageSlots;
            storageBytes := #32;
            typeName := "array";
            more := OfArray arraySize underlyingType
          |} in
          Return (descriptor decodeInfo)
      end
  end.

(** [dec.attributes && dec.attributes.name && type === 'enum ' + dec.attributes.name] *)
Definition names_enum (type : string) (dec : node) : bool :=
  match attributes dec with
  | None => false
  | Some a =>
      match Attr.name a with
      | None => false
      | Some n => negb (String.eqb n "") && String.eqb type ("enum " ++ n)
      end
  end.

Fixpoint getEnum (type : string) (stateDefinitions : stateDefinitions)
    : option node :=
  match stateDefinitions with
  | [] => None
  | dec :: rest =>
      if names_enum type dec then Some dec else getEnum type rest
  end.

(** [while (length > 1) { length = length / 256; storageBytes++ }].  The
    loop is run for at most [fuel] rounds; [Enum] grants one round per
    declared value, which the loop never uses up ([while_length_fuel]). *)
Fixpoint while_length (fuel : nat) (length storageBytes : number) : number :=
  match fuel with
  | O => storageBytes
  | S fuel' =>
      if length >? #1
      then while_length fuel' (length / #256) (storageBytes + #1)
      else storageBytes
  end.

Definition Enum (type : string) (stateDefinitions : stateDefinitions) : value :=
  match getEnum type stateDefinitions with
  | None => null
  | Some enumDef =>
      let length := List.length (children enumDef) in
      let storageBytes := while_length length (of_nat length) #0 in
      let decodeInfo := {|
        storageSlots := #1;
        storageBytes := storageBytes;
        typeName := "enum";
        more := OfEnum enumDef
      |} in
      descriptor decodeInfo
  end.

(** What [getStructMembers] returns when it does not return [null]. *)
Record memberDetails : Type := {
  members : list value;
  membersBytes : number      (* the field [storageBytes] *)
}.

(** [member.attributes.type]; reading it off a node without attributes
    throws, and so does classifying an [undefined] type. *)
Definition member_type (member : node) : outcome string :=
  match attributes member with
  | None => TypeError
  | Some a => match Attr.type a with
              | None => TypeError
              | Some type => Return type
              end
  end.

(** The inner loop [for (var i in dec.children)] of [getStructMembers], from
    the accumulators [members] and [storageBytes] on. *)
Fixpoint each_member (parseType : builder) (stateDefinitions : stateDefinitions)
    (children : list node) (members : list value) (storageBytes : number)
    : outcome (option memberDetails) :=
  match children with
  | [] => Return (Some {| members := members; membersBytes := storageBytes |})
  | member :: rest =>
      type <- member_type member ;;
      decoded <- parseType type stateDefinitions ;;
      if falsy decoded then Return None
      else
        bytes <- storageBytes_of decoded ;;
        each_member parseType stateDefinitions rest
                    (members ++ [decoded]) (storageBytes + bytes)
  end.

(** [dec.name === 'StructDefinition' && typeName === dec.attributes.name] *)
Definition names_struct (typeName : string) (dec : node) : outcome bool :=
  if String.eqb (name dec) "StructDefinition" then
    match attributes dec with
    | None => TypeError
    | Some a => Return (match Attr.name a with
                        | Some n => String.eqb typeName n
                        | None => false
                        end)
    end
  else Return false.

(** The outer loop [for (var k in stateDefinitions)] over the declarations
    [decs] still to visit; it ends at the first struct declaration of the
    name ([break]). *)
Fixpoint each_declaration (parseType : builder) (typeName : string)
    (stateDefinitions decs : stateDefinitions) : outcome (option memberDetails) :=
  match decs with
  | [] => Return (Some {| members := []; membersBytes := #0 |})
  | dec :: rest =>
      found <- names_struct typeName dec ;;
      if (found : bool)
      then each_member parseType stateDefinitions (children dec) [] #0
      else each_declaration parseType typeName stateDefinitions rest
  end.

Definition getStructMembers (parseType : builder) (typeName : string)
    (stateDefinitions : stateDefinitions) : outcome (option memberDetails) :=
  each_declaration parseType typeName stateDefinitions stateDefinitions.

Definition Struct (parseType : builder) (type : string)
    (stateDefinitions : stateDefinitions) : outcome value :=
  match struct_match type with
  | None => Return null
  | Some match1 =>
      memberDetails <- getStructMembers parseType match1 stateDefinitions ;;
      match memberDetails with
      | None => Return null
      | Some memberDetails =>
          let decodeInfo := {|
            storageSlots := ceil (membersBytes memberDetails / #32);
            storageBytes := #32;
            typeName := "struct";
            more := OfStruct (members memberDetails)
          |} in
          Return (descriptor decodeInfo)
      end
  end.

Definition typeClass (fullType : string) : string :=
  if contains "]" fullType then "array"
  else
    let fullType :=
      if contains " " fullType then before_first " " fullType else fullType in
    let char := if starts_with "bytes" fullType then "X" else "" in
    replace_digit_runs char fullType.

(** The object literal [decodeInfos] of [parseType]: its own properties. *)
Definition decodeInfos (parseType : builder) : list (string * builder) :=
  [ ("address", fun type _ => Return (Address type));
    ("array", Array parseType);
    ("bool", fun type _ => Return (Bool type));
    ("bytes", fun type _ => Return (DynamicByteArray type));
    ("bytesX", fun type _ => Return (FixedByteArray type));
    ("enum", fun type stateDefinitions => Return (Enum type stateDefinitions));
    ("string", fun type _ => Return (String type));
    ("struct", Struct parseType);
    ("int", fun type _ => Return (Int type));
    ("uint", fun type _ => Return (Uint type)) ].

(** What [decodeInfos] inherits from [Object.prototype], called with
    [this = decodeInfos] and the arguments [(type, stateDefinitions)], where
    [type] classifies to the name of the member and [stateDefinitions] is
    not a function.  [__proto__] is not callable and the two definers reject
    their second argument: calling any of the three throws. *)
Definition Object_prototype : list (string * builder) :=
  [ ("constructor", fun type _ => Return (other (StringObject type)));
    ("toString", fun _ _ => Return (other ObjectTag));
    ("toLocaleString", fun _ _ => Return (other ObjectTag));
    ("valueOf", fun _ _ => Return (other DispatchTable));
    ("hasOwnProperty", fun _ _ => Return false_);
    ("isPrototypeOf", fun _ _ => Return false_);
    ("propertyIsEnumerable", fun _ _ => Return false_);
    ("__lookupGetter__", fun _ _ => Return undefined);
    ("__lookupSetter__", fun _ _ => Return undefined);
    ("__defineGetter__", fun _ _ => TypeError);
    ("__defineSetter__", fun _ _ => TypeError);
    ("__proto__", fun _ _ => TypeError) ].

Fixpoint lookup (key : string) (properties : list (string * builder))
    : option builder :=
  match properties with
  | [] => None
  | (k, f) :: rest => if String.eqb key k then Some f else lookup key rest
  end.

(** [table[key]]: an own property, else an inherited one, else [undefined]. *)
Definition get (table : list (string * builder)) (key : string) : option builder :=
  match lookup key table with
  | Some f => Some f
  | None => lookup key Object_prototype
  end.

(** [typeClass] always returns a string, so the test [currentType === null]
    of the source never succeeds and the dispatcher is reached with whatever
    token the classifier produced; calling [undefined] throws. *)
Fixpoint parseType (fuel : nat) (type : string)
    (stateDefinitions : stateDefinitions) : outcome value :=
  match fuel with
  | O => OutOfFuel
  | S fuel' =>
      let currentType := typeClass type in
      match get (decodeInfos (parseType fuel')) currentType with
      | Some decode => decode type stateDefinitions
      | None => TypeError
      end
  end.

End DecodeInfo.

(* ===================================================================== *)
(** ** Vocabulary of the statements *)
(* ===================================================================== *)

Local Open Scope js_scope.

(** The qualifiers a type string may end with, the empty one included. *)
Definition locations : list string :=
  [ ""; " storage ref"; " storage pointer"; " memory"; " calldata" ].

(** A declared name as it stands in a type string: no space, no closing
    bracket, no line terminator. *)
Fixpoint plain_name (s : string) : bool :=
  match s with
  | EmptyString => true
  | String a s' =>
      negb (Ascii.eqb a " ") && negb (Ascii.eqb a "]")
      && negb (is_line_terminator a) && plain_name s'
  end.

(** An element type string: any text without a line terminator. *)
Fixpoint one_line (s : string) : bool :=
  match s with
  | EmptyString => true
  | String a s' => negb (is_line_terminator a) && one_line s'
  end.

(** A size token: any text without a bracket or a line terminator (the
    empty token and the integer literals among others). *)
Fixpoint size_token (s : string) : bool :=
  match s with
  | EmptyString => true
  | String a s' =>
      negb (Ascii.eqb a "[") && negb (Ascii.eqb a "]")
      && negb (is_line_terminator a) && size_token s'
  end.


(** The ten categories that [decodeInfos] has a builder for. *)
Definition categories : list string :=
  [ "address"; "array"; "bool"; "bytes"; "bytesX";
    "enum"; "string"; "struct"; "int"; "uint" ].

(** [P] holds of a descriptor and of every descriptor nested in it. *)
Fixpoint every (P : decodeInfo value -> Prop) (v : value) : Prop :=
  match v with
  | descriptor d =>
      P d /\
      match more d with
      | OfArray _ underlyingType => every P underlyingType
      | OfStruct members =>
          (fix all (ms : list value) : Prop :=
             match ms with
             | [] => True
             | m :: ms' => every P m /\ all ms'
             end) members
      | Plain | OfEnum _ => True
      end
  | _ => True
  end.

Definition is_descriptor (v : value) : Prop :=
  match v with descriptor _ => True | _ => False end.

(** The invariants of the data model other than the bound on the slots:
    a positive byte width, an array size that is dynamic or at least one,
    a struct with at least one member, and descriptors for the parts. *)
Definition well_sized (d : decodeInfo value) : Prop :=
  positive (storageBytes d) /\
  match more d with
  | OfArray size underlyingType =>
      match size with dynamic => True | sized n => ge1 n end
      /\ is_descriptor underlyingType
  | OfStruct members => members <> [] /\ Forall is_descriptor members
  | Plain | OfEnum _ => True
  end.

Definition slots_ge1 (d : decodeInfo value) : Prop := ge1 (storageSlots d).

(** [decoded.storageBytes] as [storageBytes += ...] reads it off a member
    that passed the test [!decoded]. *)
Definition bytes_of (v : value) : number :=
  match v with
  | descriptor d => storageBytes d
  | _ => NaN
  end.

(** The sum of the members' [storageBytes], added in declaration order. *)
Definition totalMemberBytes (members : list value) : number :=
  fold_left (fun total m => total + bytes_of m) members #0.

(** The member declaration [member] resolves to [v]: a value that passes the
    test [!decoded] of [getStructMembers]. *)
Definition resolves (parseType : DecodeInfo.builder) (st : stateDefinitions)
    (member : node) (v : value) : Prop :=
  exists type, DecodeInfo.member_type member = Return type
               /\ parseType type st = Return v /\ falsy v = false.

(** [dec] is the first declaration of [decs] that the struct lookup accepts
    for [typeName]; the ones before it are passed over. *)
Inductive declares_struct (typeName : string) : stateDefinitions -> node -> Prop :=
| declares_here dec rest :
    DecodeInfo.names_struct typeName dec = Return true ->
    declares_struct typeName (dec :: rest) dec
| declares_later other_dec rest dec :
    DecodeInfo.names_struct typeName other_dec = Return false ->
    declares_struct typeName rest dec ->
    declares_struct typeName (other_dec :: rest) dec.

(** No declaration of the table is a struct declaration named [typeName]. *)
Definition undeclared_struct (typeName : string) (st : stateDefinitions) : Prop :=
  Forall (fun dec => DecodeInfo.names_struct typeName dec = Return false) st.

(** The loop of [Enum] as the specification words it: from the running value
    [length] and the counter [storageBytes], divide by 256 and count one more
    while the running value exceeds 1; the last argument is the final
    counter. *)
Inductive counts : number -> number -> number -> Prop :=
| counts_done length storageBytes :
    (length >? #1) = false ->
    counts length storageBytes storageBytes
| counts_round length storageBytes width :
    (length >? #1) = true ->
    counts (length / #256) (storageBytes + #1) width ->
    counts length storageBytes width.

(** The least [k] with [valueCount <= 256 ^ k]. *)
Definition bytes_for (valueCount : nat) : Z :=
  (Z.log2_up (Z.of_nat valueCount) + 7) / 8.

(** The decimal literal of [n], as [String(n)] writes it. *)
Definition decimal (n : nat) : string :=
  DecimalString.NilEmpty.string_of_uint (Nat.to_uint n).

(** The integers that a JavaScript number holds exactly, the range in which
    the exact numbers of the model are the numbers of the program. *)
Definition safe_integer (n : nat) : Prop := (Z.of_nat n < 2 ^ 53)%Z.

(** The first code unit of [s], if there is one, is neither a digit nor a
    letter: [parseInt] stops reading there. *)
Definition no_digit_ahead (s : string) : Prop :=
  match s with
  | EmptyString => True
  | String a _ => digit_value a = None
  end.

(** [dec.attributes.name], when the node has both. *)
Definition declared_name (dec : node) : option string :=
  match attributes dec with
  | Some a => Attr.name a
  | None => None
  end.

(** No declaration of the table is of kind StructDefinition. *)
Definition struct_free (st : stateDefinitions) : Prop :=
  Forall (fun dec => name dec <> "StructDefinition") st.

(** Case analysis on the key that is looked up in a table of properties,
    one comparison after the other. *)
Ltac each_key :=
  repeat match goal with
  | |- context [String.eqb ?k ?c] => destruct (String.eqb k c)
  end.

(* ===================================================================== *)
(** ** Sample declarations *)
(* ===================================================================== *)

Definition member_of (declared type : string) : node :=
  Node "VariableDeclaration" (Some (Attr.make (Some declared) (Some type))) [].

Definition enum_value (declared : string) : node :=
  Node "EnumValue" (Some (Attr.make (Some declared) None)) [].

(** [struct Pair { uint128 a; uint128 b; }] *)
Definition Pair : node :=
  Node "StructDefinition" (Some (Attr.make (Some "Pair") None))
       [member_of "a" "uint128"; member_of "b" "uint128"].

(** [struct Triple { uint128 a; uint128 b; uint128 c; }] *)
Definition Triple : node :=
  Node "StructDefinition" (Some (Attr.make (Some "Triple") None))
       [member_of "a" "uint128"; member_of "b" "uint128"; member_of "c" "uint128"].

(** [enum Color { Red, Green, Blue }] *)
Definition Color : node :=
  Node "EnumDefinition" (Some (Attr.make (Some "Color") None))
       [enum_value "Red"; enum_value "Green"; enum_value "Blue"].

(** [enum Wide] with 300 values, and [enum Unit] with one *)
Definition Wide : node :=
  Node "EnumDefinition" (Some (Attr.make (Some "Wide") None))
       (List.repeat (enum_value "V") 300).

Definition Unit : node :=
  Node "EnumDefinition" (Some (Attr.make (Some "Unit") None)) [enum_value "Only"].

(** [struct Broken { uint128 a; enum Missing b; bool c; }], whose second
    member names an enum that [sample_table] does not declare *)
Definition Broken : node :=
  Node "StructDefinition" (Some (Attr.make (Some "Broken") None))
       [member_of "a" "uint128"; member_of "b" "enum Missing"; member_of "c" "bool"].

(** [struct Loop { Loop next; }], a declaration that contains itself *)
Definition Loop : node :=
  Node "StructDefinition" (Some (Attr.make (Some "Loop") None))
       [member_of "next" "struct Loop"].

Definition sample_table : stateDefinitions :=
  [Color; Pair; Triple; Wide; Unit; Broken].

Definition uint128_descriptor : value :=
  descriptor {| storageSlots := #1; storageBytes := #16;
                typeName := "uint"; more := Plain |}.

(** [struct Chain { uint256 head; Chain tail; }] *)
Definition Chain : node :=
  Node "StructDefinition" (Some (Attr.make (Some "Chain") None))
       [member_of "head" "uint256"; member_of "tail" "struct Chain storage ref"].

(** [struct Holder { uint256[3] items; string label; }] *)
Definition Holder : node :=
  Node "StructDefinition" (Some (Attr.make (Some "Holder") None))
       [member_of "items" "uint256[3]"; member_of "label" "string"].

(* ===================================================================== *)
(** ** Checks of the string functions *)
(* ===================================================================== *)

Example parseInt_256 : parseInt "256" = of_Z 256.
Proof. reflexivity. Qed.
Example parseInt_empty : parseInt "" = NaN.
Proof. reflexivity. Qed.
Example parseInt_trailing : parseInt "256 storage ref" = of_Z 256.
Proof. reflexivity. Qed.
Example parseInt_signed : parseInt " -5" = of_Z (-5).
Proof. reflexivity. Qed.
Example parseInt_hex : parseInt "0x10" = of_Z 16.
Proof. reflexivity. Qed.
Example parseInt_word : parseInt "abc" = NaN.
Proof. reflexivity. Qed.

Example array_match_fixed : array_match "uint256[3]" = Some ("uint256", "3").
Proof. reflexivity. Qed.
Example array_match_nested :
  array_match "int256[] storage ref[] storage ref"
  = Some ("int256[] storage ref", "").
Proof. reflexivity. Qed.
Example array_match_sized :
  array_match "uint[2] storage ref[2]" = Some ("uint[2] storage ref", "2").
Proof. reflexivity. Qed.
Example array_match_none : array_match "uint256]" = None.
Proof. reflexivity. Qed.
Example struct_match_ref :
  struct_match "struct structDef storage ref" = Some "structDef".
Proof. reflexivity. Qed.
Example struct_match_plain : struct_match "struct Foo" = Some "Foo".
Proof. reflexivity. Qed.
Example struct_match_bare : struct_match "struct" = None.
Proof. reflexivity. Qed.


(* ===================================================================== *)
(** ** Properties *)
(* ===================================================================== *)

(** *** Numbers *)

Lemma Qred_inject_Z z : Qred (inject_Z z) = inject_Z z.
Proof.
  unfold Qred, inject_Z. simpl Qnum. simpl Qden.
  generalize (Z.ggcd_gcd z 1) (Z.ggcd_correct_divisors z 1).
  destruct (Z.ggcd z 1) as (g, (a, b)). simpl.
  rewrite Z.gcd_1_r. intros -> [Ha Hb].
  rewrite Z.mul_1_l in Ha, Hb. now subst.
Qed.

Lemma fin_eq p q : (p == q)%Q -> fin p = fin q.
Proof. intros H. unfold fin. f_equal. now apply Qred_complete. Qed.

Lemma fin_of_Z p z : (p == inject_Z z)%Q -> fin p = of_Z z.
Proof.
  intros H. unfold fin, of_Z. f_equal.
  rewrite <- (Qred_inject_Z z). now apply Qred_complete.
Qed.

Lemma add_of_Z a b : add (of_Z a) (of_Z b) = of_Z (a + b).
Proof. simpl. apply fin_of_Z. now rewrite inject_Z_plus. Qed.

Lemma mul_of_Z a b : mul (of_Z a) (of_Z b) = of_Z (a * b).
Proof. simpl. apply fin_of_Z. now rewrite inject_Z_mult. Qed.

Lemma ge1_ceil_of_positive q : (0 < q)%Q -> ge1 (ceil (Finite q)).
Proof.
  intros H. simpl. 
  assert (0 < Qceiling q)%Z.
  { apply Z.lt_nge. intros Hc. pose proof (Qle_ceiling q) as Hq.
    assert (inject_Z (Qceiling q) <= 0)%Q by (rewrite <- (Zle_Qle _ 0); exact Hc).
    lra. }
  change 1%Q with (inject_Z 1). rewrite <- Zle_Qle. lia.
Qed.

Lemma Qzero_false q : ~ (q == 0)%Q -> Qzero q = false.
Proof.
  intros H. unfold Qzero. destruct (Qeq_bool q 0) eqn:E; [|reflexivity].
  apply Qeq_bool_iff in E. contradiction.
Qed.

Lemma Qneg_false q : (0 <= q)%Q -> Qneg q = false.
Proof.
  intros H. unfold Qneg. apply Qle_bool_iff in H. now rewrite H.
Qed.

Lemma lt_Finite_true a b : lt (Finite a) (Finite b) = true <-> (a < b)%Q.
Proof.
  simpl. rewrite negb_true_iff. split.
  - intros H. apply Qnot_le_lt. intros Hc. apply Qle_bool_iff in Hc. congruence.
  - intros H. destruct (Qle_bool b a) eqn:E; [|reflexivity].
    apply Qle_bool_iff in E. lra.
Qed.

Lemma ge1_mul n s : ge1 n -> ge1 s -> ge1 (mul n s).
Proof.
  destruct n as [|sn|a], s as [|ss|b]; unfold ge1, mul, fin;
    try tauto; intros Hn Hs; subst; auto.
  - rewrite Qzero_false, Qneg_false by lra. reflexivity.
  - rewrite Qzero_false, Qneg_false by lra. reflexivity.
  - rewrite Qred_correct. nra.
Qed.

Lemma ge1_packed n b :
  ge1 n -> positive b -> lt b (of_Z 32) = true ->
  ge1 (ceil (div n (floor (div (of_Z 32) b)))).
Proof.
  intros Hn Hb Hlt. destruct b as [|sb|q]; simpl in Hb; try tauto.
  { subst. discriminate. }
  apply lt_Finite_true in Hlt.
  assert (Hq32 : (q < 32)%Q) by exact Hlt. clear Hlt.
  unfold div at 2. unfold of_Z at 1.
  rewrite (Qzero_false q) by lra.
  unfold fin, floor.
  set (k := Qfloor (Qred (inject_Z 32 / q))).
  assert (Hk : (1 <= k)%Z).
  { unfold k. rewrite <- (Qfloor_Z 1). apply Qfloor_resp_le.
    rewrite Qred_correct. apply Qle_shift_div_l; [lra|].
    change (inject_Z 32) with 32%Q. change (inject_Z 1) with 1%Q. lra. }
  assert (HkQ : (1 <= inject_Z k)%Q).
  { change 1%Q with (inject_Z 1). now rewrite <- Zle_Qle. }
  destruct n as [|sn|m]; simpl in Hn; try tauto.
  - subst. simpl. now rewrite Qneg_false by lra.
  - unfold div, of_Z. rewrite Qzero_false by lra.
    apply ge1_ceil_of_positive. rewrite Qred_correct.
    apply Qlt_shift_div_l; lra.
Qed.

Lemma positive_add x y : nonneg x -> positive y -> positive (add x y).
Proof.
  destruct x as [|sx|a], y as [|sy|b]; unfold nonneg, positive, add, fin;
    try tauto; intros Hx Hy; subst; auto.
  - reflexivity.
  - rewrite Qred_correct. lra.
Qed.

Lemma positive_nonneg x : positive x -> nonneg x.
Proof. destruct x; simpl; auto. intros. lra. Qed.

Lemma ge1_struct_slots t : positive t -> ge1 (ceil (div t (of_Z 32))).
Proof.
  destruct t as [|s|q]; unfold positive; try tauto; intros H.
  - now subst.
  - unfold div, of_Z. change (Qzero (inject_Z 32)) with false. cbv iota.
    apply ge1_ceil_of_positive. unfold fin. rewrite Qred_correct.
    apply Qlt_shift_div_l; [reflexivity|]. lra.
Qed.

(** *** The loop of [Enum] *)

Lemma gt_one_Finite q : (Finite q >? #1) = true <-> (1 < q)%Q.
Proof. unfold gt. apply lt_Finite_true. Qed.

Lemma counts_deterministic l c w1 w2 :
  counts l c w1 -> counts l c w2 -> w1 = w2.
Proof.
  intros H1. revert w2. induction H1 as [l c Hl | l c w Hl _ IH]; intros w2 H2.
  - inversion H2; subst; [reflexivity | congruence].
  - inversion H2; subst; [congruence | now apply IH].
Qed.

(** A budget of [fuel] rounds is enough for a running value of at most
    [256 ^ fuel]. *)
Lemma while_length_counts fuel : forall q c,
  (q <= inject_Z (256 ^ Z.of_nat fuel))%Q ->
  counts (Finite q) c (DecodeInfo.while_length fuel (Finite q) c).
Proof.
  induction fuel as [|fuel IH]; intros q c Hq.
  - simpl. apply counts_done.
    destruct (Finite q >? #1) eqn:E; [|reflexivity].
    apply gt_one_Finite in E. change (inject_Z (256 ^ Z.of_nat 0)) with 1%Q in Hq. lra.
  - cbn [DecodeInfo.while_length].
    destruct (Finite q >? #1) eqn:E.
    + apply counts_round; [exact E|].
      assert (Hd : (Finite q / #256) = Finite (Qred (q / 256))) by reflexivity.
      rewrite Hd. apply IH. rewrite Qred_correct.
      apply Qle_shift_div_r; [reflexivity|].
      rewrite Nat2Z.inj_succ, Z.pow_succ_r in Hq by lia.
      rewrite inject_Z_mult in Hq. change (inject_Z 256) with 256%Q in Hq. lra.
    + now apply counts_done.
Qed.

Lemma of_nat_le_pow n : (inject_Z (Z.of_nat n) <= inject_Z (256 ^ Z.of_nat n))%Q.
Proof.
  rewrite <- Zle_Qle. apply Z.lt_le_incl, Z.pow_gt_lin_r; lia.
Qed.

Lemma while_length_fuel n fuel :
  (n <= fuel)%nat ->
  DecodeInfo.while_length fuel (of_nat n) #0 = DecodeInfo.while_length n (of_nat n) #0.
Proof.
  intros Hn. apply (counts_deterministic (of_nat n) #0).
  - apply while_length_counts. eapply Qle_trans; [apply of_nat_le_pow|].
    rewrite <- Zle_Qle. apply Z.pow_le_mono_r; lia.
  - apply while_length_counts, of_nat_le_pow.
Qed.

Lemma counts_least (k : nat) : forall q c,
  (q <= inject_Z (256 ^ Z.of_nat k))%Q ->
  (forall j, k = S j -> (inject_Z (256 ^ Z.of_nat j) < q)%Q) ->
  counts (Finite q) #c #(c + Z.of_nat k).
Proof.
  induction k as [|k IH]; intros q c Hle Hgt.
  - rewrite Z.add_0_r. apply counts_done.
    destruct (Finite q >? #1) eqn:E; [|reflexivity].
    apply gt_one_Finite in E. change (inject_Z (256 ^ Z.of_nat 0)) with 1%Q in Hle. lra.
  - specialize (Hgt k eq_refl).
    assert (H1 : (1 <= inject_Z (256 ^ Z.of_nat k))%Q).
    { change 1%Q with (inject_Z 1). rewrite <- Zle_Qle.
      assert (0 < 256 ^ Z.of_nat k)%Z by (apply Z.pow_pos_nonneg; lia). lia. }
    apply counts_round; [apply gt_one_Finite; lra|].
    rewrite add_of_Z.
    replace (c + Z.of_nat (S k))%Z with ((c + 1) + Z.of_nat k)%Z by lia.
    assert (Hd : (Finite q / #256) = Finite (Qred (q / 256))) by reflexivity.
    rewrite Hd. apply IH.
    + rewrite Qred_correct. apply Qle_shift_div_r; [reflexivity|].
      rewrite Nat2Z.inj_succ, Z.pow_succ_r in Hle by lia.
      rewrite inject_Z_mult in Hle. change (inject_Z 256) with 256%Q in Hle. lra.
    + intros j ->. rewrite Qred_correct. apply Qlt_shift_div_l; [reflexivity|].
      rewrite Nat2Z.inj_succ, Z.pow_succ_r in Hgt by lia.
      rewrite inject_Z_mult in Hgt. change (inject_Z 256) with 256%Q in Hgt. lra.
Qed.

Lemma bytes_for_nonneg n : (0 <= bytes_for n)%Z.
Proof.
  unfold bytes_for. apply Z.div_pos; [|lia].
  pose proof (Z.log2_up_nonneg (Z.of_nat n)). lia.
Qed.

Lemma pow256 k : (0 <= k)%Z -> (256 ^ k = 2 ^ (8 * k))%Z.
Proof. intros Hk. rewrite Z.pow_mul_r by lia. reflexivity. Qed.

Lemma bytes_for_upper n : (Z.of_nat n <= 256 ^ bytes_for n)%Z.
Proof.
  pose proof (bytes_for_nonneg n) as H0. rewrite pow256 by exact H0.
  unfold bytes_for in *. set (a := Z.of_nat n) in *.
  pose proof (Z.log2_up_nonneg a) as HL.
  destruct (Z_lt_le_dec 1 a) as [Ha|Ha].
  - pose proof (Z.log2_up_spec a Ha) as [_ Hup].
    eapply Z.le_trans; [exact Hup|]. apply Z.pow_le_mono_r; [lia|].
    pose proof (Z.mul_div_le (Z.log2_up a + 7) 8 ltac:(lia)).
    pose proof (Z.mod_pos_bound (Z.log2_up a + 7) 8 ltac:(lia)).
    pose proof (Z.div_mod (Z.log2_up a + 7) 8 ltac:(lia)). lia.
  - assert (0 < 2 ^ (8 * ((Z.log2_up a + 7) / 8)))%Z by (apply Z.pow_pos_nonneg; lia).
    lia.
Qed.

Lemma bytes_for_lower n j :
  bytes_for n = Z.succ j -> (0 <= j)%Z -> (256 ^ j < Z.of_nat n)%Z.
Proof.
  intros Hk Hj. rewrite pow256 by exact Hj.
  unfold bytes_for in Hk. set (a := Z.of_nat n) in *.
  pose proof (Z.log2_up_nonneg a) as HL.
  destruct (Z_lt_le_dec 1 a) as [Ha|Ha].
  - pose proof (Z.log2_up_spec a Ha) as [Hlow _].
    eapply Z.le_lt_trans; [|exact Hlow]. apply Z.pow_le_mono_r; [lia|].
    pose proof (Z.mul_div_le (Z.log2_up a + 7) 8 ltac:(lia)). lia.
  - rewrite (Z.log2_up_eqn0 a Ha) in Hk. change ((0 + 7) / 8)%Z with 0%Z in Hk. lia.
Qed.

Lemma while_length_bytes_for n :
  DecodeInfo.while_length n (of_nat n) #0 = #(bytes_for n).
Proof.
  apply (counts_deterministic (of_nat n) #0).
  - apply while_length_counts, of_nat_le_pow.
  - pose proof (bytes_for_nonneg n) as H0.
    replace (bytes_for n) with (0 + Z.of_nat (Z.to_nat (bytes_for n)))%Z at 1 by lia.
    apply counts_least.
    + rewrite Z2Nat.id by exact H0. rewrite <- Zle_Qle. apply bytes_for_upper.
    + intros j Hj. rewrite <- Zlt_Qlt. apply bytes_for_lower; lia.
Qed.

(** *** Strings and dispatch *)

Lemma lazy_until_bracket_contains t : forall m,
  lazy_until_bracket t = Some m -> contains "]" t = true.
Proof.
  induction t as [|a t IH]; intros m H; [discriminate|].
  cbn [lazy_until_bracket contains] in *.
  destruct (Ascii.eqb a "]"); [reflexivity|].
  cbn [andb] in H. destruct (is_line_terminator a); [discriminate|].
  destruct (lazy_until_bracket t) as [m'|]; [|discriminate].
  now apply (IH m').
Qed.

Lemma array_match_here_contains r : forall m,
  array_match_here r = Some m -> contains "]" r = true.
Proof.
  induction r as [|a r IH]; intros m H; [discriminate|].
  cbn [array_match_here contains] in *.
  destruct (Ascii.eqb a "]"); [reflexivity|].
  assert (Hempty :
    forall m', (if Ascii.eqb a "["
                then option_map (fun m2 => (EmptyString, m2)) (lazy_until_bracket r)
                else None) = Some m' -> contains "]" r = true).
  { intros m' Hm. destruct (Ascii.eqb a "["); [|discriminate].
    destruct (lazy_until_bracket r) as [m2|] eqn:E; [|discriminate].
    now apply (lazy_until_bracket_contains r m2). }
  destruct (is_line_terminator a); [now apply (Hempty m)|].
  destruct (array_match_here r) as [[m1 m2]|]; [now apply (IH (m1, m2))|].
  now apply (Hempty m).
Qed.

Lemma array_match_contains s : forall m,
  array_match s = Some m -> contains "]" s = true.
Proof.
  induction s as [|a s IH]; intros m H.
  - discriminate.
  - cbn [array_match] in H.
    destruct (array_match_here (String a s)) as [m'|] eqn:E.
    + now apply (array_match_here_contains _ m').
    + cbn [contains]. destruct (Ascii.eqb a "]"); [reflexivity|]. now apply (IH m).
Qed.

(** The patterns on the shapes of the input grammar. *)

Lemma location_opt_end_iff s : location_opt_end s = true <-> In s locations.
Proof.
  unfold location_opt_end, locations. rewrite !orb_true_iff, !String.eqb_eq.
  cbn [In]. intuition congruence.
Qed.

Lemma location_opt_end_head a s :
  Ascii.eqb a " " = false -> location_opt_end (String a s) = false.
Proof.
  intros H. unfold location_opt_end. cbn [String.eqb]. now rewrite H.
Qed.

Lemma location_no_bracket q : In q locations -> contains "]" q = false.
Proof.
  intros H. cbn in H.
  repeat (destruct H as [<-|H]; [reflexivity|]). contradiction.
Qed.

Lemma contains_app c s t : contains c (s ++ t) = contains c s || contains c t.
Proof.
  induction s as [|a s IH]; [reflexivity|].
  cbn [append contains]. now destruct (Ascii.eqb a c).
Qed.

Lemma plain_name_no_bracket n : plain_name n = true -> contains "]" n = false.
Proof.
  induction n as [|a n IH]; [reflexivity|].
  cbn [plain_name contains]. rewrite !andb_true_iff, !negb_true_iff.
  intros [[[_ H] _] Hn]. rewrite H. now apply IH.
Qed.

Lemma lazy_until_end_name n q :
  plain_name n = true -> In q locations -> lazy_until_end (n ++ q) = Some n.
Proof.
  intros Hn Hq. induction n as [|a n IH].
  - cbn [append]. apply location_opt_end_iff in Hq.
    destruct q; cbn [lazy_until_end]; now rewrite Hq.
  - cbn [plain_name] in Hn. rewrite !andb_true_iff, !negb_true_iff in Hn.
    destruct Hn as [[[Hsp _] Hlt] Hn].
    cbn [append lazy_until_end].
    rewrite (location_opt_end_head _ _ Hsp), Hlt, (IH Hn). reflexivity.
Qed.

Lemma struct_match_here s m :
  starts_with "struct " s = true ->
  lazy_until_end (drop 7 s) = Some m ->
  struct_match s = Some m.
Proof.
  intros Hs Hm. destruct s as [|a s]; [discriminate|].
  cbn [struct_match]. now rewrite Hs, Hm.
Qed.

Lemma struct_match_name n q :
  plain_name n = true -> In q locations ->
  struct_match ("struct " ++ n ++ q) = Some n.
Proof.
  intros Hn Hq. apply struct_match_here; [reflexivity|].
  cbn [append drop]. now apply lazy_until_end_name.
Qed.

Lemma typeClass_struct_name n q :
  plain_name n = true -> In q locations ->
  DecodeInfo.typeClass ("struct " ++ n ++ q) = "struct".
Proof.
  intros Hn Hq. unfold DecodeInfo.typeClass.
  assert (H : contains "]" ("struct " ++ n ++ q) = false).
  { cbn [append contains Ascii.eqb Bool.eqb]. cbn.
    now rewrite contains_app, (plain_name_no_bracket _ Hn), (location_no_bracket _ Hq). }
  rewrite H. reflexivity.
Qed.

Lemma typeClass_enum_name n :
  contains "]" n = false -> DecodeInfo.typeClass ("enum " ++ n) = "enum".
Proof.
  intros Hn. unfold DecodeInfo.typeClass.
  assert (H : contains "]" ("enum " ++ n) = false) by (cbn; exact Hn).
  rewrite H. reflexivity.
Qed.

(** *** The array pattern on the shape [T[N]q] *)

Lemma lazy_until_bracket_size n q :
  size_token n = true -> In q locations ->
  lazy_until_bracket (n ++ "]" ++ q) = Some n.
Proof.
  intros Hn Hq. induction n as [|a n IH]; cbn [append] in *.
  - cbn [lazy_until_bracket Ascii.eqb Bool.eqb andb].
    apply location_opt_end_iff in Hq. now rewrite Hq.
  - cbn [size_token] in Hn. rewrite !andb_true_iff, !negb_true_iff in Hn.
    destruct Hn as [[[_ Hclose] Hlt] Hn].
    cbn [lazy_until_bracket]. rewrite Hclose, Hlt. cbn [andb].
    now rewrite (IH Hn).
Qed.

Lemma array_match_here_no_open r :
  contains "[" r = false -> array_match_here r = None.
Proof.
  induction r as [|a r IH]; [reflexivity|].
  cbn [contains array_match_here].
  destruct (Ascii.eqb a "["); [discriminate|]. intros Hr.
  rewrite (IH Hr). now destruct (is_line_terminator a).
Qed.

Lemma size_token_no_open n : size_token n = true -> contains "[" n = false.
Proof.
  induction n as [|a n IH]; [reflexivity|].
  cbn [size_token contains]. rewrite !andb_true_iff, !negb_true_iff.
  intros [[[H _] _] Hn]. rewrite H. now apply IH.
Qed.

Lemma location_no_open q : In q locations -> contains "[" q = false.
Proof.
  intros H. cbn in H.
  repeat (destruct H as [<-|H]; [reflexivity|]). contradiction.
Qed.

Lemma array_match_here_shape t n q :
  one_line t = true -> size_token n = true -> In q locations ->
  array_match_here (t ++ "[" ++ n ++ "]" ++ q) = Some (t, n).
Proof.
  intros Ht Hn Hq.
  pose proof (lazy_until_bracket_size _ _ Hn Hq) as Hlazy.
  assert (Hrest : contains "[" (n ++ "]" ++ q) = false).
  { rewrite contains_app, (size_token_no_open _ Hn). cbn.
    now apply location_no_open. }
  induction t as [|a t IH]; cbn [append] in *.
  - cbn [array_match_here].
    change (is_line_terminator "[") with false. cbn [Ascii.eqb Bool.eqb].
    now rewrite (array_match_here_no_open _ Hrest), Hlazy.
  - cbn [one_line] in Ht. rewrite andb_true_iff, negb_true_iff in Ht.
    destruct Ht as [Hlt Ht].
    cbn [array_match_here]. rewrite Hlt, (IH Ht). reflexivity.
Qed.

Lemma array_match_shape t n q :
  one_line t = true -> size_token n = true -> In q locations ->
  array_match (t ++ "[" ++ n ++ "]" ++ q) = Some (t, n).
Proof.
  intros Ht Hn Hq.
  pose proof (array_match_here_shape t n q Ht Hn Hq) as H.
  destruct (t ++ "[" ++ n ++ "]" ++ q); cbn [array_match]; now rewrite H.
Qed.

Lemma typeClass_bracket s :
  contains "]" s = true -> DecodeInfo.typeClass s = "array".
Proof. intros H. unfold DecodeInfo.typeClass. now rewrite H. Qed.

Lemma parseType_array fuel type st :
  contains "]" type = true ->
  DecodeInfo.parseType (S fuel) type st
  = DecodeInfo.Array (DecodeInfo.parseType fuel) type st.
Proof.
  intros H. cbn [DecodeInfo.parseType]. now rewrite (typeClass_bracket _ H).
Qed.

Lemma parseType_struct fuel type st :
  DecodeInfo.typeClass type = "struct" ->
  DecodeInfo.parseType (S fuel) type st
  = DecodeInfo.Struct (DecodeInfo.parseType fuel) type st.
Proof. intros H. cbn [DecodeInfo.parseType]. now rewrite H. Qed.

Lemma parseType_enum fuel type st :
  DecodeInfo.typeClass type = "enum" ->
  DecodeInfo.parseType (S fuel) type st = Return (DecodeInfo.Enum type st).
Proof. intros H. cbn [DecodeInfo.parseType]. now rewrite H. Qed.

Lemma not_among (key : string) (keys : list string) :
  existsb (String.eqb key) keys = false -> ~ In key keys.
Proof.
  intros H Hin. assert (E : existsb (String.eqb key) keys = true).
  { apply existsb_exists. exists key. split; [exact Hin | apply String.eqb_refl]. }
  congruence.
Qed.

Lemma lookup_own_none rec key :
  ~ In key categories -> DecodeInfo.lookup key (DecodeInfo.decodeInfos rec) = None.
Proof.
  intros H. unfold DecodeInfo.decodeInfos. cbn [DecodeInfo.lookup].
  repeat match goal with
  | |- context [String.eqb key ?c] =>
      destruct (String.eqb_spec key c) as [->|_];
      [exfalso; apply H; cbn; tauto|]
  end.
  reflexivity.
Qed.

Lemma lookup_inherited_none key :
  ~ In key (map fst DecodeInfo.Object_prototype) ->
  DecodeInfo.lookup key DecodeInfo.Object_prototype = None.
Proof.
  intros H. unfold DecodeInfo.Object_prototype. cbn [DecodeInfo.lookup].
  repeat match goal with
  | |- context [String.eqb key ?c] =>
      destruct (String.eqb_spec key c) as [->|_];
      [exfalso; apply H; cbn; tauto|]
  end.
  reflexivity.
Qed.

Lemma each_declaration_undeclared rec typeName st decs :
  undeclared_struct typeName decs ->
  DecodeInfo.each_declaration rec typeName st decs
  = Return (Some {| DecodeInfo.members := []; DecodeInfo.membersBytes := #0 |}).
Proof.
  induction 1 as [|dec rest Hdec _ IH]; [reflexivity|].
  cbn [DecodeInfo.each_declaration]. rewrite Hdec. exact IH.
Qed.

Lemma each_declaration_declared rec typeName st decs dec :
  declares_struct typeName decs dec ->
  DecodeInfo.each_declaration rec typeName st decs
  = DecodeInfo.each_member rec st (children dec) [] #0.
Proof.
  induction 1 as [dec rest Hdec | other_dec rest dec Hother _ IH];
    cbn [DecodeInfo.each_declaration].
  - now rewrite Hdec.
  - rewrite Hother. exact IH.
Qed.

(** C9, as amended.  For every type string that contains the character
    [\]], the classifier assigns the category [array], whatever else the
    string holds (a struct or enum prefix, qualifiers, digits): the test of
    the classifier is on the closing bracket, not on the opening one. *)
Theorem closing_bracket_classifies_as_array (fullType : string) :
  contains "]" fullType = true -> DecodeInfo.typeClass fullType = "array".
Proof. apply typeClass_bracket. Qed.

Lemma closing_bracket_classifies_as_array_witness :
  contains "]" "struct Foo[2] storage ref" = true
  /\ DecodeInfo.typeClass "struct Foo[2] storage ref" = "array".
Proof.
  split; [reflexivity|].
  apply (closing_bracket_classifies_as_array "struct Foo[2] storage ref").
  reflexivity.
Defined.

Lemma opening_bracket_alone_is_not_array :
  contains "[" "uint256[" = true /\ DecodeInfo.typeClass "uint256[" = "uint["
  /\ DecodeInfo.typeClass "uint256[" <> "array".
Proof. split; [reflexivity|]. split; [reflexivity | discriminate]. Qed.

(** C8.  Resolving the bare keyword [uint] (and likewise [int]) performs no
    alias expansion to a 256-bit width: the returned descriptor has one slot
    and a [storageBytes] that is not a number, and it differs from the
    descriptor of [uint256] (of [int256]), whose width is 32. *)
Theorem bare_uint_int_not_a_number (fuel : nat) (st : stateDefinitions) :
  DecodeInfo.parseType (S fuel) "uint" st
  = Return (descriptor {| storageSlots := #1; storageBytes := NaN;
                          typeName := "uint"; more := Plain |})
  /\ DecodeInfo.parseType (S fuel) "int" st
     = Return (descriptor {| storageSlots := #1; storageBytes := NaN;
                             typeName := "int"; more := Plain |})
  /\ DecodeInfo.Uint "uint" <> DecodeInfo.Uint "uint256"
  /\ DecodeInfo.Int "int" <> DecodeInfo.Int "int256".
Proof.
  split; [reflexivity|]. split; [reflexivity|]. split; discriminate.
Qed.

(** C3, on the code as it is.  For a type string whose classifier token is
    none of the ten categories, [parseType] returns neither the failure value
    [null] nor a descriptor; unless the token names a member of
    [Object.prototype], the call throws a [TypeError]. *)
Theorem unknown_category_is_not_reported (fuel : nat) (type : string)
    (st : stateDefinitions) :
  ~ In (DecodeInfo.typeClass type) categories ->
  DecodeInfo.parseType (S fuel) type st <> Return null
  /\ (forall d, DecodeInfo.parseType (S fuel) type st <> Return (descriptor d))
  /\ (~ In (DecodeInfo.typeClass type) (map fst DecodeInfo.Object_prototype) ->
      DecodeInfo.parseType (S fuel) type st = TypeError).
Proof.
  intros Hown. cbn [DecodeInfo.parseType]. unfold DecodeInfo.get.
  rewrite (lookup_own_none _ _ Hown).
  split; [|split].
  - unfold DecodeInfo.Object_prototype. cbn [DecodeInfo.lookup].
    each_key; discriminate.
  - intros d. unfold DecodeInfo.Object_prototype. cbn [DecodeInfo.lookup].
    each_key; discriminate.
  - intros Hproto. now rewrite (lookup_inherited_none _ Hproto).
Qed.

Lemma unknown_category_is_not_reported_witness :
  DecodeInfo.parseType 1 "mapping(address => uint256)" [] <> Return null
  /\ DecodeInfo.parseType 1 "mapping(address => uint256)" [] = TypeError.
Proof.
  assert (Hown : ~ In (DecodeInfo.typeClass "mapping(address => uint256)") categories)
    by (apply not_among; reflexivity).
  destruct (unknown_category_is_not_reported 0 "mapping(address => uint256)" [] Hown)
    as (Hnull & _ & Hthrow).
  split; [exact Hnull|]. apply Hthrow. apply not_among. reflexivity.
Defined.

Lemma Struct_undeclared (fuel : nat) (type typeName : string)
    (st : stateDefinitions) :
  DecodeInfo.typeClass type = "struct" ->
  struct_match type = Some typeName ->
  undeclared_struct typeName st ->
  DecodeInfo.parseType (S fuel) type st
  = Return (descriptor {| storageSlots := #0; storageBytes := #32;
                          typeName := "struct"; more := OfStruct [] |}).
Proof.
  intros Hclass Hmatch Hst. rewrite (parseType_struct _ _ _ Hclass).
  unfold DecodeInfo.Struct, DecodeInfo.getStructMembers. rewrite Hmatch.
  rewrite (each_declaration_undeclared _ _ _ _ Hst). reflexivity.
Qed.

(** C1, on the code as it is.  When no declaration of the symbol table is a
    struct declaration named [Name], resolving the type string
    "struct <Name>" (with or without a qualifier) does not fail: it returns
    a struct descriptor with no member and zero slots. *)
Theorem undeclared_struct_yields_empty_descriptor (fuel : nat)
    (Name location : string) (st : stateDefinitions) :
  plain_name Name = true ->
  In location locations ->
  undeclared_struct Name st ->
  DecodeInfo.parseType (S fuel) ("struct " ++ Name ++ location) st
  = Return (descriptor {| storageSlots := #0; storageBytes := #32;
                          typeName := "struct"; more := OfStruct [] |}).
Proof.
  intros HName Hlocation Hst.
  apply (Struct_undeclared fuel _ Name);
    [apply typeClass_struct_name | apply struct_match_name | ]; assumption.
Qed.

Lemma Array_matched (fuel : nat) (type match1 match2 : string)
    (st : stateDefinitions) (element : decodeInfo value) :
  array_match type = Some (match1, match2) ->
  DecodeInfo.parseType fuel match1 st = Return (descriptor element) ->
  let b := storageBytes element in
  let s := storageSlots element in
  let size := parseInt match2 in
  DecodeInfo.parseType (S fuel) type st
  = Return (descriptor {|
      storageSlots :=
        if String.eqb match2 "" then #1
        else if b <? #32 then ceil (size / floor (#32 / b))
        else size * s;
      storageBytes := #32;
      typeName := "array";
      more := OfArray (if String.eqb match2 "" then dynamic else sized size)
                      (descriptor element) |}).
Proof.
  intros Hmatch Helement b s size.
  rewrite (parseType_array _ _ _ (array_match_contains _ _ Hmatch)).
  unfold DecodeInfo.Array. rewrite Hmatch, Helement. cbn [bind].
  destruct (String.eqb match2 ""); [reflexivity|].
  cbn [storageBytes_of storageSlots_of read bind].
  fold b. fold s. fold size. now destruct (b <? #32).
Qed.


(** *** The member loop of [getStructMembers] *)

Lemma storageBytes_of_truthy v :
  falsy v = false -> storageBytes_of v = Return (bytes_of v).
Proof. destruct v; simpl; intros H; try discriminate; reflexivity. Qed.

Lemma each_member_resolved rec st members' resolved :
  Forall2 (resolves rec st) members' resolved ->
  forall members storageBytes,
  DecodeInfo.each_member rec st members' members storageBytes
  = Return (Some {|
      DecodeInfo.members := members ++ resolved;
      DecodeInfo.membersBytes :=
        fold_left (fun total m => total + bytes_of m) resolved storageBytes |}).
Proof.
  induction 1 as [|member v rest vs (type & Htype & Hrec & Htruthy) _ IH];
    intros members storageBytes.
  - cbn. now rewrite app_nil_r.
  - cbn [DecodeInfo.each_member]. rewrite Htype. cbn [bind]. rewrite Hrec. cbn [bind].
    rewrite Htruthy, (storageBytes_of_truthy _ Htruthy). cbn [bind].
    rewrite IH, <- app_assoc. reflexivity.
Qed.

Lemma each_member_inv rec st members' : forall members storageBytes details,
  DecodeInfo.each_member rec st members' members storageBytes = Return (Some details) ->
  exists resolved,
    Forall2 (resolves rec st) members' resolved
    /\ DecodeInfo.members details = (members ++ resolved)%list
    /\ DecodeInfo.membersBytes details
       = fold_left (fun total m => total + bytes_of m) resolved storageBytes.
Proof.
  induction members' as [|member rest IH]; intros members storageBytes details H.
  - cbn in H. injection H as <-. exists []. cbn. now rewrite app_nil_r.
  - cbn [DecodeInfo.each_member] in H.
    destruct (DecodeInfo.member_type member) as [type| |] eqn:Htype; try discriminate.
    cbn [bind] in H.
    destruct (rec type st) as [v| |] eqn:Hrec; try discriminate.
    cbn [bind] in H.
    destruct (falsy v) eqn:Htruthy; [discriminate|].
    rewrite (storageBytes_of_truthy _ Htruthy) in H. cbn [bind] in H.
    destruct (IH _ _ _ H) as (vs & Hvs & Hmembers & Hbytes).
    exists (v :: vs). split; [|split].
    + constructor; [|exact Hvs]. now exists type.
    + now rewrite Hmembers, <- app_assoc.
    + exact Hbytes.
Qed.

Lemma each_member_fails rec st before resolved :
  Forall2 (resolves rec st) before resolved ->
  forall member after type v members storageBytes,
  DecodeInfo.member_type member = Return type ->
  rec type st = Return v ->
  falsy v = true ->
  DecodeInfo.each_member rec st (before ++ member :: after) members storageBytes
  = Return None.
Proof.
  induction 1 as [|m0 v0 rest vs (type0 & Htype0 & Hrec0 & Htruthy0) _ IH];
    intros member after type v members storageBytes Htype Hrec Hfalsy.
  - cbn [app DecodeInfo.each_member]. rewrite Htype. cbn [bind]. rewrite Hrec. cbn [bind].
    now rewrite Hfalsy.
  - cbn [app DecodeInfo.each_member]. rewrite Htype0. cbn [bind]. rewrite Hrec0. cbn [bind].
    rewrite Htruthy0, (storageBytes_of_truthy _ Htruthy0). cbn [bind].
    now apply (IH member after type v).
Qed.

Lemma each_member_throws rec st before resolved :
  Forall2 (resolves rec st) before resolved ->
  forall member after type members storageBytes,
  DecodeInfo.member_type member = Return type ->
  rec type st = TypeError ->
  DecodeInfo.each_member rec st (before ++ member :: after) members storageBytes
  = TypeError.
Proof.
  induction 1 as [|m0 v0 rest vs (type0 & Htype0 & Hrec0 & Htruthy0) _ IH];
    intros member after type members storageBytes Htype Hrec.
  - cbn [app DecodeInfo.each_member]. rewrite Htype. cbn [bind]. now rewrite Hrec.
  - cbn [app DecodeInfo.each_member]. rewrite Htype0. cbn [bind]. rewrite Hrec0. cbn [bind].
    rewrite Htruthy0, (storageBytes_of_truthy _ Htruthy0). cbn [bind].
    now apply (IH member after type).
Qed.

Lemma Struct_declared rec type typeName st dec :
  struct_match type = Some typeName ->
  declares_struct typeName st dec ->
  DecodeInfo.Struct rec type st
  = (memberDetails <- DecodeInfo.each_member rec st (children dec) [] #0 ;;
     match memberDetails with
     | None => Return null
     | Some memberDetails =>
         Return (descriptor {|
           storageSlots := ceil (DecodeInfo.membersBytes memberDetails / #32);
           storageBytes := #32;
           typeName := "struct";
           more := OfStruct (DecodeInfo.members memberDetails) |})
     end).
Proof.
  intros Hmatch Hdec. unfold DecodeInfo.Struct, DecodeInfo.getStructMembers.
  now rewrite Hmatch, (each_declaration_declared _ _ _ _ _ Hdec).
Qed.

Lemma Struct_resolved (fuel : nat) (type typeName : string)
    (st : stateDefinitions) (dec : node) (resolved : list value) :
  DecodeInfo.typeClass type = "struct" ->
  struct_match type = Some typeName ->
  declares_struct typeName st dec ->
  Forall2 (resolves (DecodeInfo.parseType fuel) st) (children dec) resolved ->
  DecodeInfo.parseType (S fuel) type st
  = Return (descriptor {|
      storageSlots := ceil (totalMemberBytes resolved / #32);
      storageBytes := #32;
      typeName := "struct";
      more := OfStruct resolved |}).
Proof.
  intros Hclass Hmatch Hdec Hresolved.
  rewrite (parseType_struct _ _ _ Hclass), (Struct_declared _ _ _ _ _ Hmatch Hdec).
  now rewrite (each_member_resolved _ _ _ _ Hresolved).
Qed.


Lemma Struct_all_or_nothing (fuel : nat) (type typeName : string)
    (st : stateDefinitions) (dec : node) :
  DecodeInfo.typeClass type = "struct" ->
  struct_match type = Some typeName ->
  declares_struct typeName st dec ->
  (forall before member after resolved memberType v,
      children dec = (before ++ member :: after)%list ->
      Forall2 (resolves (DecodeInfo.parseType fuel) st) before resolved ->
      DecodeInfo.member_type member = Return memberType ->
      DecodeInfo.parseType fuel memberType st = Return v ->
      falsy v = true ->
      DecodeInfo.parseType (S fuel) type st = Return null)
  /\ (forall before member after resolved memberType,
      children dec = (before ++ member :: after)%list ->
      Forall2 (resolves (DecodeInfo.parseType fuel) st) before resolved ->
      DecodeInfo.member_type member = Return memberType ->
      DecodeInfo.parseType fuel memberType st = TypeError ->
      DecodeInfo.parseType (S fuel) type st = TypeError)
  /\ (forall d,
      DecodeInfo.parseType (S fuel) type st = Return (descriptor d) ->
      exists resolved,
        more d = OfStruct resolved
        /\ Forall2 (resolves (DecodeInfo.parseType fuel) st) (children dec) resolved).
Proof.
  intros Hclass Hmatch Hdec.
  rewrite (parseType_struct _ _ _ Hclass), (Struct_declared _ _ _ _ _ Hmatch Hdec).
  split; [|split].
  - intros before member after resolved memberType v Hchildren Hbefore Htype Hrec Hfalsy.
    rewrite Hchildren.
    now rewrite (each_member_fails _ _ _ _ Hbefore member after memberType v [] #0 Htype Hrec Hfalsy).
  - intros before member after resolved memberType Hchildren Hbefore Htype Hrec.
    rewrite Hchildren.
    now rewrite (each_member_throws _ _ _ _ Hbefore member after memberType [] #0 Htype Hrec).
  - intros d H.
    destruct (DecodeInfo.each_member (DecodeInfo.parseType fuel) st (children dec) [] #0)
      as [[details|]| |] eqn:E; cbn [bind] in H; try discriminate.
    destruct (each_member_inv _ _ _ _ _ _ E) as (resolved & Hresolved & Hmembers & _).
    injection H as <-. exists resolved. split; [|exact Hresolved].
    cbn [more]. now rewrite Hmembers.
Qed.

(** C7.  For a struct whose declaration is found: the members are resolved
    in declaration order; if a member resolves to a falsy value ([null])
    after the ones before it resolved, the whole resolution returns [null];
    if it throws, the whole resolution throws; and a descriptor is returned
    only with the complete list of resolved members, one per declared
    member and in the order of the declaration. *)
Theorem struct_members_all_or_nothing (fuel : nat) (Name location : string)
    (st : stateDefinitions) (dec : node) :
  plain_name Name = true ->
  In location locations ->
  declares_struct Name st dec ->
  let type := "struct " ++ Name ++ location in
  (forall before member after resolved memberType v,
      children dec = (before ++ member :: after)%list ->
      Forall2 (resolves (DecodeInfo.parseType fuel) st) before resolved ->
      DecodeInfo.member_type member = Return memberType ->
      DecodeInfo.parseType fuel memberType st = Return v ->
      falsy v = true ->
      DecodeInfo.parseType (S fuel) type st = Return null)
  /\ (forall before member after resolved memberType,
      children dec = (before ++ member :: after)%list ->
      Forall2 (resolves (DecodeInfo.parseType fuel) st) before resolved ->
      DecodeInfo.member_type member = Return memberType ->
      DecodeInfo.parseType fuel memberType st = TypeError ->
      DecodeInfo.parseType (S fuel) type st = TypeError)
  /\ (forall d,
      DecodeInfo.parseType (S fuel) type st = Return (descriptor d) ->
      exists resolved,
        more d = OfStruct resolved
        /\ Forall2 (resolves (DecodeInfo.parseType fuel) st) (children dec) resolved).
Proof.
  intros HName Hlocation Hdec type.
  apply (Struct_all_or_nothing fuel type Name st dec);
    [apply typeClass_struct_name | apply struct_match_name | ]; assumption.
Qed.

(** C6.  For every enum declaration found in the symbol table, the enum
    descriptor has one slot and a [storageBytes] that is the counter of the
    loop "divide by 256 and count one more while the running value exceeds
    1" started from the number of values, that is the least [k] with
    [valueCount <= 256 ^ k]: 1 for 3 values, 2 for 300 values and 0 for a
    single value. *)
Theorem enum_width (type : string) (st : stateDefinitions) (enumDef : node) :
  DecodeInfo.getEnum type st = Some enumDef ->
  let valueCount := List.length (children enumDef) in
  exists width,
    DecodeInfo.Enum type st
    = descriptor {| storageSlots := #1; storageBytes := width;
                    typeName := "enum"; more := OfEnum enumDef |}
    /\ counts (of_nat valueCount) #0 width
    /\ width = #(bytes_for valueCount)
    /\ (valueCount = 3%nat -> width = #1)
    /\ (valueCount = 300%nat -> width = #2)
    /\ (valueCount = 1%nat -> width = #0)
    /\ (forall fuel, DecodeInfo.typeClass type = "enum" ->
        DecodeInfo.parseType (S fuel) type st
        = Return (descriptor {| storageSlots := #1; storageBytes := width;
                                typeName := "enum"; more := OfEnum enumDef |})).
Proof.
  intros Hfound valueCount.
  exists (DecodeInfo.while_length valueCount (of_nat valueCount) #0).
  assert (HEnum : DecodeInfo.Enum type st
    = descriptor {| storageSlots := #1;
                    storageBytes := DecodeInfo.while_length valueCount (of_nat valueCount) #0;
                    typeName := "enum"; more := OfEnum enumDef |}).
  { unfold DecodeInfo.Enum. now rewrite Hfound. }
  split; [exact HEnum|].
  split; [apply while_length_counts, of_nat_le_pow|].
  split; [apply while_length_bytes_for|].
  split; [intros ->; reflexivity|].
  split; [intros ->; vm_compute; reflexivity|].
  split; [intros ->; reflexivity|].
  intros fuel Hclass. now rewrite (parseType_enum _ _ _ Hclass), HEnum.
Qed.




(** *** Slot counts of well-sized descriptors *)

Lemma every_members P members :
  (fix all (ms : list value) : Prop :=
     match ms with
     | [] => True
     | m :: ms' => every P m /\ all ms'
     end) members <-> Forall (every P) members.
Proof.
  induction members as [|m ms IH].
  - split; constructor.
  - split.
    + intros [Hm Hms]. constructor; [exact Hm | now apply IH].
    + intros H. inversion H; subst. split; [assumption | now apply IH].
Qed.

Lemma ge1_one : ge1 #1.
Proof. unfold ge1, of_Z. apply Qle_refl. Qed.

Lemma well_sized_bytes v :
  is_descriptor v -> every well_sized v -> positive (bytes_of v).
Proof.
  destruct v as [| | | |d]; try contradiction. intros _ [[H _] _]. exact H.
Qed.

Lemma positive_total resolved : forall total,
  Forall (fun m => positive (bytes_of m)) resolved ->
  nonneg total -> resolved <> [] ->
  positive (fold_left (fun total m => total + bytes_of m) resolved total).
Proof.
  assert (Hpos : forall vs total,
    Forall (fun m => positive (bytes_of m)) vs -> positive total ->
    positive (fold_left (fun total m => total + bytes_of m) vs total)).
  { induction vs as [|m vs IH]; intros total Hvs Htotal; [exact Htotal|].
    inversion Hvs; subst. cbn [fold_left]. apply IH; [assumption|].
    apply positive_add; [now apply positive_nonneg | assumption]. }
  destruct resolved as [|m vs]; intros total Hvs Htotal Hne; [contradiction|].
  inversion Hvs; subst. cbn [fold_left]. apply Hpos; [assumption|].
  now apply positive_add.
Qed.

Section Slots.

Variable rec : DecodeInfo.builder.
Variable st : stateDefinitions.
Hypothesis rec_slots :
  forall type v, rec type st = Return v ->
                 every well_sized v -> every slots_ge1 v.

Lemma Array_slots_ge1 type v :
  DecodeInfo.Array rec type st = Return v ->
  every well_sized v -> every slots_ge1 v.
Proof.
  unfold DecodeInfo.Array.
  destruct (array_match type) as [[match1 match2]|]; [|now intros [= <-]].
  destruct (rec match1 st) as [u| |] eqn:Hu; cbn [bind]; try discriminate.
  destruct u as [| | | f |element];
    try (now intros [= <-]);
    try (destruct (String.eqb match2 ""); cbn; try discriminate;
         intros [= <-] [[_ [_ []]] _]).
  intros H Hv.
  assert (Helement : every well_sized (descriptor element) ->
                     every slots_ge1 (descriptor element)) by apply (rec_slots _ _ Hu).
  destruct (String.eqb match2 "").
  - cbn in H. injection H as <-. destruct Hv as [_ Hu']. split; [apply ge1_one|].
    cbn [more]. now apply Helement.
  - cbn [storageBytes_of storageSlots_of read bind] in H.
    destruct (storageBytes element <? #32) eqn:Hlt; cbn [bind] in H;
      injection H as <-; destruct Hv as [[_ [Hsize _]] Hu']; cbn [more] in *;
      (split; [|now apply Helement]); unfold slots_ge1; cbn [storageSlots].
    + apply ge1_packed; [exact Hsize | apply Hu' | exact Hlt].
    + apply ge1_mul; [exact Hsize | now apply Helement].
Qed.

Lemma each_declaration_inv typeName decs details :
  DecodeInfo.each_declaration rec typeName st decs = Return (Some details) ->
  DecodeInfo.members details = []
  \/ exists members',
       DecodeInfo.each_member rec st members' [] #0 = Return (Some details).
Proof.
  induction decs as [|dec rest IH]; cbn [DecodeInfo.each_declaration].
  - intros [= <-]. now left.
  - destruct (DecodeInfo.names_struct typeName dec) as [[|]| |]; cbn [bind];
      try discriminate.
    + intros H. right. now exists (children dec).
    + exact IH.
Qed.

Lemma Struct_slots_ge1 type v :
  DecodeInfo.Struct rec type st = Return v ->
  every well_sized v -> every slots_ge1 v.
Proof.
  unfold DecodeInfo.Struct, DecodeInfo.getStructMembers.
  destruct (struct_match type) as [typeName|]; [|now intros [= <-]].
  destruct (DecodeInfo.each_declaration rec typeName st st) as [[details|]| |] eqn:E;
    cbn [bind]; try discriminate; [|now intros [= <-]].
  intros [= <-] [[_ [Hne Hdesc]] Hall]. cbn [more] in *.
  apply every_members in Hall.
  destruct (each_declaration_inv _ _ _ E) as [Hnil | (members' & Hmembers)];
    [contradiction|].
  destruct (each_member_inv _ _ _ _ _ _ Hmembers) as (resolved & Hres & Hms & Hbytes).
  cbn [app] in Hms. rewrite Hms in *. split.
  - unfold slots_ge1. cbn [storageSlots]. rewrite Hbytes.
    apply ge1_struct_slots, positive_total; [|apply Qle_refl | exact Hne].
    rewrite Forall_forall in *. intros m Hm.
    apply well_sized_bytes; [now apply Hdesc | now apply Hall].
  - apply every_members. clear Hms Hbytes Hne Hdesc Hmembers E.
    induction Hres as [|member m rest ms (type' & _ & Hrec & _) _ IH];
      constructor; inversion Hall; subst.
    + now apply (rec_slots _ _ Hrec).
    + now apply IH.
Qed.

End Slots.

(** C2, as amended.  Every descriptor returned on success, and every
    descriptor nested in it, has [storageSlots >= 1], provided that
    throughout the returned descriptor every [storageBytes] is positive,
    every fixed-size array has a size of at least one, every struct has at
    least one member, and array elements and struct members are
    descriptors. *)
Theorem well_sized_descriptors_have_slots (fuel : nat) : forall type st v,
  DecodeInfo.parseType fuel type st = Return v ->
  every well_sized v -> every slots_ge1 v.
Proof.
  induction fuel as [|fuel IH]; intros type st v; [discriminate|].
  cbn [DecodeInfo.parseType].
  unfold DecodeInfo.get, DecodeInfo.decodeInfos, DecodeInfo.Object_prototype.
  cbn [DecodeInfo.lookup].
  each_key;
  try discriminate;
  try solve [intros [= <-] _; first [exact I | split; [apply ge1_one | exact I]]].
  - apply Array_slots_ge1. intros t u. apply IH.
  - unfold DecodeInfo.Enum. destruct (DecodeInfo.getEnum type st); intros [= <-] _;
      [split; [apply ge1_one | exact I] | exact I].
  - apply Struct_slots_ge1. intros t u. apply IH.
Qed.

(** *** More fuel *)

Section MoreFuel.

Variables rec rec' : DecodeInfo.builder.
Hypothesis rec_extends :
  forall type st o, rec type st = o -> o <> OutOfFuel -> rec' type st = o.

Lemma bind_OutOfFuel {A B : Type} (m : outcome A) (k : A -> outcome B) o :
  bind m k = o -> o <> OutOfFuel -> m <> OutOfFuel.
Proof. intros H Ho ->. now apply Ho. Qed.

Lemma Array_extends type st o :
  DecodeInfo.Array rec type st = o -> o <> OutOfFuel ->
  DecodeInfo.Array rec' type st = o.
Proof.
  unfold DecodeInfo.Array.
  destruct (array_match type) as [[match1 match2]|]; [|easy].
  intros H Ho.
  rewrite (rec_extends match1 st _ eq_refl (bind_OutOfFuel _ _ _ H Ho)).
  exact H.
Qed.

Lemma each_member_extends st members' : forall members storageBytes o,
  DecodeInfo.each_member rec st members' members storageBytes = o ->
  o <> OutOfFuel ->
  DecodeInfo.each_member rec' st members' members storageBytes = o.
Proof.
  induction members' as [|member rest IH]; intros members storageBytes o H Ho;
    [exact H|].
  cbn [DecodeInfo.each_member] in *.
  destruct (DecodeInfo.member_type member) as [type| |]; cbn [bind] in *; try exact H.
  rewrite (rec_extends type st _ eq_refl (bind_OutOfFuel _ _ _ H Ho)).
  destruct (rec type st) as [decoded| |]; cbn [bind] in *; try exact H.
  destruct (falsy decoded); [exact H|].
  destruct (storageBytes_of decoded) as [bytes| |]; cbn [bind] in *; try exact H.
  now apply IH.
Qed.

Lemma each_declaration_extends typeName st decs o :
  DecodeInfo.each_declaration rec typeName st decs = o -> o <> OutOfFuel ->
  DecodeInfo.each_declaration rec' typeName st decs = o.
Proof.
  induction decs as [|dec rest IH]; [easy|].
  cbn [DecodeInfo.each_declaration].
  destruct (DecodeInfo.names_struct typeName dec) as [[|]| |]; cbn [bind]; try easy.
  apply each_member_extends.
Qed.

Lemma Struct_extends type st o :
  DecodeInfo.Struct rec type st = o -> o <> OutOfFuel ->
  DecodeInfo.Struct rec' type st = o.
Proof.
  unfold DecodeInfo.Struct, DecodeInfo.getStructMembers.
  destruct (struct_match type) as [typeName|]; [|easy].
  intros H Ho.
  rewrite (each_declaration_extends typeName st st _ eq_refl (bind_OutOfFuel _ _ _ H Ho)).
  exact H.
Qed.

End MoreFuel.

(** A result reached within a budget is the result for every larger one. *)
Lemma parseType_more_fuel fuel : forall type st o,
  DecodeInfo.parseType fuel type st = o -> o <> OutOfFuel ->
  DecodeInfo.parseType (S fuel) type st = o.
Proof.
  induction fuel as [|fuel IH]; intros type st o H Ho.
  - cbn in H. congruence.
  - revert H. cbn [DecodeInfo.parseType].
    unfold DecodeInfo.get, DecodeInfo.decodeInfos, DecodeInfo.Object_prototype.
    cbn [DecodeInfo.lookup].
    each_key; try easy.
    + intros H. now apply (Array_extends _ _ IH).
    + intros H. now apply (Struct_extends _ _ IH).
Qed.

Lemma parseType_fuel_le fuel fuel' type st o :
  (fuel <= fuel')%nat ->
  DecodeInfo.parseType fuel type st = o -> o <> OutOfFuel ->
  DecodeInfo.parseType fuel' type st = o.
Proof.
  induction 1 as [|fuel' _ IH]; [easy|].
  intros H Ho. apply parseType_more_fuel; [now apply IH | exact Ho].
Qed.

(** *** Instances *)

Lemma undeclared_struct_yields_empty_descriptor_witness :
  DecodeInfo.parseType 1 "struct Foo" sample_table
  = Return (descriptor {| storageSlots := #0; storageBytes := #32;
                          typeName := "struct"; more := OfStruct [] |}).
Proof.
  apply (undeclared_struct_yields_empty_descriptor 0 "Foo" "" sample_table).
  - reflexivity.
  - now left.
  - unfold undeclared_struct, sample_table. repeat constructor.
Defined.



Lemma enum_width_witness :
  exists width,
    DecodeInfo.Enum "enum Color" sample_table
    = descriptor {| storageSlots := #1; storageBytes := width;
                    typeName := "enum"; more := OfEnum Color |}
    /\ counts #3 #0 width /\ width = #1.
Proof.
  destruct (enum_width "enum Color" sample_table Color eq_refl)
    as (width & HEnum & Hcounts & _ & Hthree & _).
  exists width. split; [exact HEnum|]. split; [exact Hcounts|].
  apply Hthree. reflexivity.
Defined.

Lemma struct_members_all_or_nothing_witness :
  DecodeInfo.parseType 2 "struct Broken" sample_table = Return null.
Proof.
  assert (Hdec : declares_struct "Broken" sample_table Broken).
  { unfold sample_table. do 5 (apply declares_later; [reflexivity|]).
    apply declares_here. reflexivity. }
  destruct (struct_members_all_or_nothing 1 "Broken" "" sample_table
              Broken eq_refl (or_introl eq_refl) Hdec) as (Hfails & _ & _).
  apply (Hfails [member_of "a" "uint128"] (member_of "b" "enum Missing")
                [member_of "c" "bool"] [uint128_descriptor] "enum Missing" null).
  - reflexivity.
  - constructor; [exists "uint128"; repeat split | constructor].
  - reflexivity.
  - reflexivity.
  - reflexivity.
Defined.


Lemma zero_length_array_has_no_slot :
  exists d,
    DecodeInfo.parseType 2 "uint256[0]" [] = Return (descriptor d)
    /\ storageSlots d = #0 /\ ~ ge1 (storageSlots d).
Proof.
  eexists. split; [reflexivity|]. split; [reflexivity|].
  cbn. intros H. now apply H.
Qed.

Lemma well_sized_descriptors_have_slots_witness :
  let pair := descriptor {|
    storageSlots := #1; storageBytes := #32; typeName := "struct";
    more := OfStruct [uint128_descriptor; uint128_descriptor] |} in
  let pairs := descriptor {|
    storageSlots := #2; storageBytes := #32; typeName := "array";
    more := OfArray (sized #2) pair |} in
  DecodeInfo.parseType 3 "struct Pair storage ref[2]" sample_table = Return pairs
  /\ every well_sized pairs
  /\ every slots_ge1 pairs.
Proof.
  intros pair pairs.
  assert (Hrun : DecodeInfo.parseType 3 "struct Pair storage ref[2]" sample_table
                 = Return pairs) by reflexivity.
  assert (Hsized : every well_sized pairs).
  { cbn. repeat split; auto; try discriminate. repeat constructor. }
  split; [exact Hrun|]. split; [exact Hsized|].
  exact (well_sized_descriptors_have_slots 3 "struct Pair storage ref[2]"
           sample_table pairs Hrun Hsized).
Defined.

(** The scalar cases of the specification's testable properties. *)
Example resolve_address :
  DecodeInfo.parseType 1 "address" []
  = Return (descriptor {| storageSlots := #1; storageBytes := #20;
                          typeName := "address"; more := Plain |}).
Proof. reflexivity. Qed.
Example resolve_bool :
  DecodeInfo.parseType 1 "bool" []
  = Return (descriptor {| storageSlots := #1; storageBytes := #1;
                          typeName := "bool"; more := Plain |}).
Proof. reflexivity. Qed.
Example resolve_uint256 :
  DecodeInfo.parseType 1 "uint256" []
  = Return (descriptor {| storageSlots := #1; storageBytes := #32;
                          typeName := "uint"; more := Plain |}).
Proof. reflexivity. Qed.
Example resolve_uint8 :
  DecodeInfo.parseType 1 "uint8" []
  = Return (descriptor {| storageSlots := #1; storageBytes := #1;
                          typeName := "uint"; more := Plain |}).
Proof. reflexivity. Qed.
Example resolve_bytes4 :
  DecodeInfo.parseType 1 "bytes4" []
  = Return (descriptor {| storageSlots := #1; storageBytes := #4;
                          typeName := "bytesX"; more := Plain |}).
Proof. reflexivity. Qed.
Example resolve_bytes_located :
  DecodeInfo.parseType 1 "bytes storage ref" []
  = Return (descriptor {| storageSlots := #1; storageBytes := #32;
                          typeName := "bytes"; more := Plain |}).
Proof. reflexivity. Qed.

(** The packing law of arrays on the three examples of the specification,
    and a dynamic array. *)
Example resolve_bool_3 :
  option_map storageSlots
    (match DecodeInfo.parseType 2 "bool[3]" [] with
     | Return (descriptor d) => Some d | _ => None end) = Some #1.
Proof. reflexivity. Qed.
Example resolve_uint128_3 :
  option_map storageSlots
    (match DecodeInfo.parseType 2 "uint128[3]" [] with
     | Return (descriptor d) => Some d | _ => None end) = Some #2.
Proof. reflexivity. Qed.
Example resolve_uint256_3 :
  option_map storageSlots
    (match DecodeInfo.parseType 2 "uint256[3]" [] with
     | Return (descriptor d) => Some d | _ => None end) = Some #3.
Proof. reflexivity. Qed.
Example resolve_uint256_dynamic :
  option_map storageSlots
    (match DecodeInfo.parseType 2 "uint256[]" [] with
     | Return (descriptor d) => Some d | _ => None end) = Some #1.
Proof. reflexivity. Qed.

(** Struct packing: 32 bytes of members take one slot, 48 bytes take two. *)
Example resolve_Triple :
  DecodeInfo.parseType 2 "struct Triple" sample_table
  = Return (descriptor {|
      storageSlots := #2; storageBytes := #32; typeName := "struct";
      more := OfStruct [uint128_descriptor; uint128_descriptor;
                        uint128_descriptor] |}).
Proof. reflexivity. Qed.

(** Enum widths: 300 values need two bytes, a single value none. *)
Example resolve_Wide :
  DecodeInfo.parseType 1 "enum Wide" sample_table
  = Return (descriptor {| storageSlots := #1; storageBytes := #2;
                          typeName := "enum"; more := OfEnum Wide |}).
Proof. vm_compute. reflexivity. Qed.
Example resolve_Unit :
  DecodeInfo.parseType 1 "enum Unit" sample_table
  = Return (descriptor {| storageSlots := #1; storageBytes := #0;
                          typeName := "enum"; more := OfEnum Unit |}).
Proof. reflexivity. Qed.

(** A single-valued enum has width zero, so that a fixed-size array of it
    packs infinitely many items per slot and takes no slot at all. *)
Example resolve_Unit_3 :
  option_map storageSlots
    (match DecodeInfo.parseType 2 "enum Unit[3]" sample_table with
     | Return (descriptor d) => Some d | _ => None end) = Some #0.
Proof. reflexivity. Qed.

(** A struct that declares itself as a member exhausts every budget: the
    resolver has no bound on its recursion. *)
Lemma recursive_struct_never_resolves (fuel : nat) :
  DecodeInfo.parseType fuel "struct Loop" [Loop] = OutOfFuel.
Proof.
  induction fuel as [|fuel IH]; [reflexivity|].
  rewrite parseType_struct by reflexivity.
  unfold DecodeInfo.Struct, DecodeInfo.getStructMembers.
  change (struct_match "struct Loop") with (Some "Loop").
  cbn [DecodeInfo.each_declaration DecodeInfo.names_struct].
  change (DecodeInfo.names_struct "Loop" Loop) with (@Return bool true).
  cbn [bind children Loop DecodeInfo.each_member].
  change (DecodeInfo.member_type (member_of "next" "struct Loop"))
    with (Return "struct Loop").
  cbn [bind]. now rewrite IH.
Qed.

(* ===================================================================== *)
(** ** Further properties of the resolver *)
(* ===================================================================== *)

(** *** Decimal literals *)

Lemma read_digits_stop R acc s : no_digit_ahead s -> read_digits R acc s = acc.
Proof. destruct s as [|a s]; cbn; [reflexivity|]. now intros ->. Qed.

Lemma read_digits_uint d : forall (acc : nat) rest,
  read_digits 10 (Some (Z.of_nat acc)) (DecimalString.NilEmpty.string_of_uint d ++ rest)
  = read_digits 10 (Some (Z.of_nat (Nat.of_uint_acc d acc))) rest.
Proof.
  induction d; intros acc rest; cbn [DecimalString.NilEmpty.string_of_uint append Nat.of_uint_acc];
    [reflexivity|..];
    cbn [read_digits]; rewrite <- IHd;
    match goal with
    | |- context [digit_value ?c] =>
        let v := eval vm_compute in (digit_value c) in
        change (digit_value c) with v
    end;
    cbv iota beta;
    match goal with
    | |- context [(?k <? 10)%Z] => change (k <? 10)%Z with true
    end;
    cbv iota; do 2 f_equal; rewrite Nat.tail_mul_spec; lia.
Qed.

Lemma read_digits_first d rest :
  d <> Decimal.Nil ->
  read_digits 10 None (DecimalString.NilEmpty.string_of_uint d ++ rest)
  = read_digits 10 (Some 0%Z) (DecimalString.NilEmpty.string_of_uint d ++ rest).
Proof. destruct d; [contradiction|..]; reflexivity. Qed.

Lemma to_uint_nonnil n : Nat.to_uint n <> Decimal.Nil.
Proof.
  rewrite <- (DecimalNat.Unsigned.of_to n) at 1.
  rewrite DecimalNat.Unsigned.to_of. apply DecimalFacts.unorm_nonnil.
Qed.

Lemma read_digits_decimal n rest :
  no_digit_ahead rest ->
  read_digits 10 None (decimal n ++ rest) = Some (Z.of_nat n).
Proof.
  intros Hrest. unfold decimal.
  rewrite read_digits_first by apply to_uint_nonnil.
  rewrite (read_digits_uint _ 0), (read_digits_stop _ _ _ Hrest).
  fold (Nat.of_uint (Nat.to_uint n)). now rewrite DecimalNat.Unsigned.of_to.
Qed.

Lemma starts_with_0x_stop rest :
  no_digit_ahead rest ->
  starts_with "0x" (String "0" rest) || starts_with "0X" (String "0" rest) = false.
Proof.
  destruct rest as [|a rest]; [reflexivity|]. cbn [no_digit_ahead]. intros Ha.
  cbn [starts_with]. change (Ascii.eqb "0" "0") with true. cbn [andb].
  destruct (Ascii.eqb_spec "x" a) as [<-|_]; [discriminate|].
  destruct (Ascii.eqb_spec "X" a) as [<-|_]; [discriminate|]. reflexivity.
Qed.

Lemma parseInt_uint d rest :
  d <> Decimal.Nil -> no_digit_ahead rest ->
  parseInt (DecimalString.NilEmpty.string_of_uint d ++ rest)
  = match read_digits 10 None (DecimalString.NilEmpty.string_of_uint d ++ rest) with
    | Some n => of_Z n
    | None => NaN
    end.
Proof.
  intros Hd Hrest. unfold parseInt.
  destruct d as [|d|d|d|d|d|d|d|d|d|d]; [contradiction|..];
    cbn [DecimalString.NilEmpty.string_of_uint append skip_white_space];
    match goal with
    | |- context [is_white_space ?c] => change (is_white_space c) with false
    end; cbv iota;
    try reflexivity.
  destruct d as [|d|d|d|d|d|d|d|d|d|d];
    cbn [DecimalString.NilEmpty.string_of_uint append]; try reflexivity.
  now rewrite (starts_with_0x_stop _ Hrest).
Qed.

Lemma parseInt_decimal n rest :
  no_digit_ahead rest -> parseInt (decimal n ++ rest) = of_nat n.
Proof.
  intros Hrest. unfold decimal.
  rewrite (parseInt_uint _ _ (to_uint_nonnil n) Hrest).
  fold (decimal n). now rewrite (read_digits_decimal _ _ Hrest).
Qed.

Lemma location_no_digit q : In q locations -> no_digit_ahead q.
Proof.
  intros H. cbn in H.
  repeat (destruct H as [<-|H]; [exact I || reflexivity|]). contradiction.
Qed.

(** *** The classifier on keywords followed by digits *)

Lemma append_empty (s : string) : s ++ "" = s.
Proof. induction s; cbn; congruence. Qed.

Lemma append_associative (s t u : string) : (s ++ t) ++ u = s ++ t ++ u.
Proof. induction s; cbn; congruence. Qed.

Lemma before_first_app c s t :
  contains c s = false ->
  (t = EmptyString \/ exists t', t = String c t') ->
  before_first c (s ++ t) = s.
Proof.
  intros Hs Ht. induction s as [|a s IH]; cbn [append].
  - destruct Ht as [->|[t' ->]]; [reflexivity|].
    cbn [before_first]. now rewrite Ascii.eqb_refl.
  - cbn [contains] in Hs. cbn [before_first].
    destruct (Ascii.eqb a c); [discriminate|]. now rewrite (IH Hs).
Qed.

Lemma location_shape q :
  In q locations -> q = EmptyString \/ exists q', q = String " " q'.
Proof.
  intros H. cbn in H.
  destruct H as [<-|H]; [now left|].
  repeat (destruct H as [<-|H]; [right; eexists; reflexivity|]). contradiction.
Qed.

Lemma token_before_location s q :
  contains " " s = false -> In q locations ->
  (if contains " " (s ++ q) then before_first " " (s ++ q) else s ++ q) = s.
Proof.
  intros Hs Hq. rewrite contains_app, Hs. cbn [orb].
  destruct (location_shape _ Hq) as [->|[q' ->]].
  - cbn [contains]. clear. induction s; cbn; congruence.
  - cbn [contains]. rewrite Ascii.eqb_refl.
    apply before_first_app; [exact Hs | right; now exists q'].
Qed.

Lemma uint_no_char c d :
  digit_value c = None -> contains c (DecimalString.NilEmpty.string_of_uint d) = false.
Proof.
  intros Hc. induction d; cbn [DecimalString.NilEmpty.string_of_uint contains]; [reflexivity|..];
    match goal with
    | |- context [Ascii.eqb ?k c] =>
        destruct (Ascii.eqb_spec k c) as [<-|_]; [discriminate Hc | exact IHd]
    end.
Qed.

Lemma digit_runs_uint r d rest :
  replace_digit_runs_from true r (DecimalString.NilEmpty.string_of_uint d ++ rest)
  = replace_digit_runs_from true r rest.
Proof.
  induction d; cbn [DecimalString.NilEmpty.string_of_uint append]; [reflexivity|..];
    cbn [replace_digit_runs_from];
    match goal with
    | |- context [is_digit ?k] => change (is_digit k) with true
    end; exact IHd.
Qed.

Lemma digit_runs_uint_first r d rest :
  d <> Decimal.Nil ->
  replace_digit_runs_from false r (DecimalString.NilEmpty.string_of_uint d ++ rest)
  = r ++ replace_digit_runs_from true r rest.
Proof.
  destruct d; [contradiction|..]; intros _;
    cbn [DecimalString.NilEmpty.string_of_uint append replace_digit_runs_from];
    match goal with
    | |- context [is_digit ?k] => change (is_digit k) with true
    end; cbv iota; now rewrite digit_runs_uint.
Qed.

Lemma typeClass_keyword (keyword : string) n q :
  In keyword ["uint"; "int"; "bytes"] -> In q locations ->
  DecodeInfo.typeClass (keyword ++ decimal n ++ q)
  = if String.eqb keyword "bytes" then "bytesX" else keyword.
Proof.
  intros Hk Hq. unfold DecodeInfo.typeClass.
  assert (Hclose : contains "]" (keyword ++ decimal n ++ q) = false).
  { rewrite !contains_app, (location_no_bracket _ Hq).
    unfold decimal. rewrite uint_no_char by reflexivity.
    cbn in Hk. now repeat (destruct Hk as [<-|Hk]; [reflexivity|]). }
  rewrite Hclose.
  assert (Htoken : contains " " (keyword ++ decimal n) = false).
  { rewrite contains_app. unfold decimal. rewrite uint_no_char by reflexivity.
    cbn in Hk. now repeat (destruct Hk as [<-|Hk]; [reflexivity|]). }
  rewrite <- append_associative.
  rewrite (token_before_location _ _ Htoken Hq).
  pose proof (to_uint_nonnil n) as Hn. unfold decimal.
  rewrite <- (append_empty (DecimalString.NilEmpty.string_of_uint (Nat.to_uint n))).
  unfold replace_digit_runs.
  cbn in Hk. repeat (destruct Hk as [<-|Hk]; [
    cbn [append starts_with Ascii.eqb Bool.eqb andb String.eqb replace_digit_runs_from];
    repeat match goal with
    | |- context [is_digit ?k] => change (is_digit k) with false; cbv iota
    end;
    rewrite (digit_runs_uint_first _ _ _ Hn); reflexivity |]).
  contradiction.
Qed.

(** X1.  Sized integers: for every natural number [n] (below 2^53, the
    range in which the numbers of the model are those of JavaScript) and
    every qualifier, the type strings [uint<n>] and [int<n>] resolve, against
    any table, to a one-slot descriptor whose [storageBytes] is [n / 8] (a
    fraction when [n] is no multiple of 8). *)
Theorem sized_integer_width (fuel n : nat) (location : string)
    (st : stateDefinitions) :
  safe_integer n ->
  In location locations ->
  DecodeInfo.parseType (S fuel) ("uint" ++ decimal n ++ location) st
  = Return (descriptor {| storageSlots := #1; storageBytes := of_nat n / #8;
                          typeName := "uint"; more := Plain |})
  /\ DecodeInfo.parseType (S fuel) ("int" ++ decimal n ++ location) st
     = Return (descriptor {| storageSlots := #1; storageBytes := of_nat n / #8;
                             typeName := "int"; more := Plain |}).
Proof.
  intros _ Hq. pose proof (location_no_digit _ Hq) as Hstop.
  split; cbn [DecodeInfo.parseType];
    rewrite typeClass_keyword by (cbn; tauto || exact Hq);
    cbn [String.eqb Ascii.eqb Bool.eqb DecodeInfo.get DecodeInfo.lookup
         DecodeInfo.decodeInfos];
    unfold DecodeInfo.Uint, DecodeInfo.Int;
    cbn [append replace_first starts_with Ascii.eqb Bool.eqb andb String.length drop];
    now rewrite (parseInt_decimal _ _ Hstop).
Qed.

Lemma sized_integer_width_witness :
  DecodeInfo.parseType 1 "uint128 storage ref" []
  = Return (descriptor {| storageSlots := #1; storageBytes := #16;
                          typeName := "uint"; more := Plain |})
  /\ DecodeInfo.parseType 1 "int7" []
     = Return (descriptor {| storageSlots := #1; storageBytes := Finite (Qmake 7 8);
                             typeName := "int"; more := Plain |}).
Proof.
  split.
  - apply (sized_integer_width 0 128 " storage ref" []);
      [reflexivity | right; now left].
  - apply (sized_integer_width 0 7 "" []); [reflexivity | now left].
Defined.

(** X2.  Fixed byte arrays: for every natural number [n] (below 2^53) and
    every qualifier, [bytes<n>] classifies as [bytesX] and resolves to a
    one-slot descriptor whose [storageBytes] is [n]. *)
Theorem fixed_bytes_width (fuel n : nat) (location : string)
    (st : stateDefinitions) :
  safe_integer n ->
  In location locations ->
  DecodeInfo.typeClass ("bytes" ++ decimal n ++ location) = "bytesX"
  /\ DecodeInfo.parseType (S fuel) ("bytes" ++ decimal n ++ location) st
     = Return (descriptor {| storageSlots := #1; storageBytes := of_nat n;
                             typeName := "bytesX"; more := Plain |}).
Proof.
  intros _ Hq. pose proof (location_no_digit _ Hq) as Hstop.
  assert (Hclass : DecodeInfo.typeClass ("bytes" ++ decimal n ++ location) = "bytesX")
    by (rewrite typeClass_keyword by (cbn; tauto || exact Hq); reflexivity).
  split; [exact Hclass|].
  cbn [DecodeInfo.parseType]. rewrite Hclass.
  cbn [String.eqb Ascii.eqb Bool.eqb DecodeInfo.get DecodeInfo.lookup
       DecodeInfo.decodeInfos].
  unfold DecodeInfo.FixedByteArray.
  cbn [append replace_first starts_with Ascii.eqb Bool.eqb andb String.length drop].
  now rewrite (parseInt_decimal _ _ Hstop).
Qed.

Lemma fixed_bytes_width_witness :
  DecodeInfo.parseType 1 "bytes16 memory" []
  = Return (descriptor {| storageSlots := #1; storageBytes := #16;
                          typeName := "bytesX"; more := Plain |}).
Proof.
  apply (fixed_bytes_width 0 16 " memory" []); [reflexivity|].
  do 3 right. now left.
Defined.

(** *** What a returned value looks like *)

Lemma Array_returns rec type st v :
  DecodeInfo.Array rec type st = Return v ->
  v = null
  \/ exists slots size element,
       v = descriptor {| storageSlots := slots; storageBytes := #32;
                         typeName := "array"; more := OfArray size element |}.
Proof.
  unfold DecodeInfo.Array.
  destruct (array_match type) as [[match1 match2]|]; [|intros [= <-]; now left].
  destruct (rec match1 st) as [u| |]; cbn [bind]; try discriminate.
  destruct u as [| | | f |element]; try (intros [= <-]; now left);
    match goal with
    | |- bind ?m _ = _ -> _ =>
        destruct m as [slots| |]; cbn [bind]; try discriminate;
        intros [= <-]; right; now repeat eexists
    end.
Qed.

Lemma Struct_returns rec type st v :
  DecodeInfo.Struct rec type st = Return v ->
  v = null
  \/ exists slots members,
       v = descriptor {| storageSlots := slots; storageBytes := #32;
                         typeName := "struct"; more := OfStruct members |}.
Proof.
  unfold DecodeInfo.Struct.
  destruct (struct_match type) as [typeName|]; [|intros [= <-]; now left].
  destruct (DecodeInfo.getStructMembers rec typeName st) as [[details|]| |];
    cbn [bind]; try discriminate; intros [= <-]; [right|now left].
  now repeat eexists.
Qed.

Lemma descriptor_shape (fuel : nat) (type : string)
    (st : stateDefinitions) (v : value) :
  DecodeInfo.parseType fuel type st = Return v ->
  match v with
  | null => True
  | descriptor d =>
      typeName d = DecodeInfo.typeClass type
      /\ In (typeName d) categories
      /\ match more d with
         | Plain =>
             In (typeName d)
                ["address"; "bool"; "bytes"; "bytesX"; "string"; "int"; "uint"]
             /\ storageSlots d = #1
         | OfArray _ _ => typeName d = "array" /\ storageBytes d = #32
         | OfEnum _ => typeName d = "enum" /\ storageSlots d = #1
         | OfStruct _ => typeName d = "struct" /\ storageBytes d = #32
         end
      /\ (typeName d = "address" -> storageBytes d = #20)
      /\ (typeName d = "bool" -> storageBytes d = #1)
      /\ (typeName d = "bytes" \/ typeName d = "string" -> storageBytes d = #32)
  | undefined | false_ | other _ => ~ In (DecodeInfo.typeClass type) categories
  end.
Proof.
  destruct fuel as [|fuel]; [discriminate|].
  cbn [DecodeInfo.parseType].
  unfold DecodeInfo.get, DecodeInfo.decodeInfos, DecodeInfo.Object_prototype.
  cbn [DecodeInfo.lookup].
  repeat match goal with
  | |- context [String.eqb ?k ?c] =>
      destruct (String.eqb_spec k c) as [->|?]
  end;
  try discriminate;
  try solve [intros [= <-]; cbn; intuition (discriminate || congruence)].
  - intros H. destruct (Array_returns _ _ _ _ H) as [->|(slots & size & element & ->)];
      cbn; intuition (discriminate || congruence).
  - unfold DecodeInfo.Enum. destruct (DecodeInfo.getEnum _ st); intros [= <-];
      cbn; intuition (discriminate || congruence).
  - intros H. destruct (Struct_returns _ _ _ _ H) as [->|(slots & members & ->)];
      cbn; intuition (discriminate || congruence).
Qed.

(** X3.  Whatever [parseType] returns is [null], a descriptor, or - only for
    a token outside the ten categories - a foreign value.  A returned
    descriptor carries the classifier token as its [typeName], the fields of
    the matching variant, one slot unless it is an array or a struct, 32
    bytes if it is an array, a struct, [bytes] or [string], 20 bytes for
    [address] and 1 byte for [bool]. *)
Theorem descriptor_matches_category (fuel : nat) (type : string)
    (st : stateDefinitions) (v : value) :
  DecodeInfo.parseType fuel type st = Return v ->
  match v with
  | null => True
  | descriptor d =>
      typeName d = DecodeInfo.typeClass type
      /\ In (typeName d) categories
      /\ match more d with
         | Plain =>
             In (typeName d)
                ["address"; "bool"; "bytes"; "bytesX"; "string"; "int"; "uint"]
             /\ storageSlots d = #1
         | OfArray _ _ => typeName d = "array" /\ storageBytes d = #32
         | OfEnum _ => typeName d = "enum" /\ storageSlots d = #1
         | OfStruct _ => typeName d = "struct" /\ storageBytes d = #32
         end
      /\ (typeName d = "address" -> storageBytes d = #20)
      /\ (typeName d = "bool" -> storageBytes d = #1)
      /\ (typeName d = "bytes" \/ typeName d = "string" -> storageBytes d = #32)
  | undefined | false_ | other _ => ~ In (DecodeInfo.typeClass type) categories
  end.
Proof. apply descriptor_shape. Qed.


Lemma descriptor_matches_category_witness :
  DecodeInfo.parseType 1 "bytes storage ref" []
  = Return (DecodeInfo.DynamicByteArray "bytes storage ref")
  /\ DecodeInfo.typeClass "bytes storage ref" = "bytes".
Proof.
  assert (H : DecodeInfo.parseType 1 "bytes storage ref" []
              = Return (DecodeInfo.DynamicByteArray "bytes storage ref"))
    by reflexivity.
  split; [exact H|].
  destruct (descriptor_matches_category 1 "bytes storage ref" [] _ H) as [Hname _].
  symmetry. exact Hname.
Defined.

(** *** Lookups that find nothing, shapes that do not parse *)

Lemma getEnum_undeclared declared st :
  Forall (fun dec => declared_name dec <> Some declared) st ->
  DecodeInfo.getEnum ("enum " ++ declared) st = None.
Proof.
  induction 1 as [|dec rest Hdec _ IH]; [reflexivity|].
  cbn [DecodeInfo.getEnum]. unfold DecodeInfo.names_enum.
  unfold declared_name in Hdec.
  destruct (attributes dec) as [a|]; [|exact IH].
  destruct (Attr.name a) as [n|]; [|exact IH].
  cbn [append String.eqb]. change (Ascii.eqb "e" "e") with true.
  change (Ascii.eqb "n" "n") with true. change (Ascii.eqb "u" "u") with true.
  change (Ascii.eqb "m" "m") with true. change (Ascii.eqb " " " ") with true.
  cbv iota.
  destruct (String.eqb_spec declared n) as [->|_]; [now contradiction Hdec|].
  now rewrite andb_false_r.
Qed.

(** X4.  Resolving [enum <Name>] when no declaration of the table bears the
    name [Name] returns [null]. *)
Theorem undeclared_enum_is_null (fuel : nat) (Name : string)
    (st : stateDefinitions) :
  contains "]" Name = false ->
  Forall (fun dec => declared_name dec <> Some Name) st ->
  DecodeInfo.parseType (S fuel) ("enum " ++ Name) st = Return null.
Proof.
  intros HName Hst. rewrite (parseType_enum _ _ _ (typeClass_enum_name _ HName)).
  unfold DecodeInfo.Enum. now rewrite (getEnum_undeclared _ _ Hst).
Qed.

Lemma undeclared_enum_is_null_witness :
  DecodeInfo.parseType 1 "enum Missing" sample_table = Return null.
Proof.
  apply (undeclared_enum_is_null 0 "Missing" sample_table); [reflexivity|].
  unfold sample_table. repeat constructor; discriminate.
Defined.

(** X5.  The enum lookup compares the whole type string with
    ["enum " + name]: when the declared names hold no space, an enum type
    string that ends in a qualifier resolves to [null], whether or not an
    enum of that name is declared. *)
Theorem qualified_enum_is_null (fuel : nat) (Name location : string)
    (st : stateDefinitions) :
  plain_name Name = true ->
  In location locations -> location <> "" ->
  Forall (fun dec => forall declared,
            declared_name dec = Some declared -> contains " " declared = false) st ->
  DecodeInfo.parseType (S fuel) ("enum " ++ Name ++ location) st = Return null.
Proof.
  intros HName Hq Hne Hst.
  rewrite parseType_enum.
  - unfold DecodeInfo.Enum. rewrite getEnum_undeclared; [reflexivity|].
    eapply Forall_impl; [|exact Hst]. cbn beta. intros dec Hdec Heq.
    specialize (Hdec _ Heq). rewrite contains_app in Hdec.
    destruct (location_shape _ Hq) as [->|[q' ->]]; [contradiction|].
    cbn [contains] in Hdec. rewrite Ascii.eqb_refl, orb_true_r in Hdec. discriminate.
  - apply typeClass_enum_name.
    now rewrite contains_app, (plain_name_no_bracket _ HName), (location_no_bracket _ Hq).
Qed.

Lemma qualified_enum_is_null_witness :
  DecodeInfo.parseType 1 "enum Color" sample_table
  = Return (DecodeInfo.Enum "enum Color" sample_table)
  /\ DecodeInfo.Enum "enum Color" sample_table <> null
  /\ DecodeInfo.parseType 1 "enum Color storage ref" sample_table = Return null.
Proof.
  split; [reflexivity|]. split; [discriminate|].
  apply (qualified_enum_is_null 0 "Color" " storage ref" sample_table).
  - reflexivity.
  - right. now left.
  - discriminate.
  - unfold sample_table.
    repeat constructor; intros declared [= <-]; reflexivity.
Defined.

Lemma array_match_no_open s : contains "[" s = false -> array_match s = None.
Proof.
  induction s as [|a s IH]; intros Hs.
  - reflexivity.
  - cbn [array_match]. rewrite (array_match_here_no_open _ Hs).
    cbn [contains] in Hs. destruct (Ascii.eqb a "["); [discriminate|]. now apply IH.
Qed.

(** X6.  A type string with a closing bracket but no opening one is sent to
    the array builder, whose pattern does not match it: the result is
    [null]. *)
Theorem unparsable_array_is_null (fuel : nat) (type : string)
    (st : stateDefinitions) :
  contains "]" type = true -> contains "[" type = false ->
  DecodeInfo.parseType (S fuel) type st = Return null.
Proof.
  intros Hclose Hopen. rewrite (parseType_array _ _ _ Hclose).
  unfold DecodeInfo.Array. now rewrite (array_match_no_open _ Hopen).
Qed.

Lemma unparsable_array_is_null_witness :
  DecodeInfo.parseType 1 "uint256]" [] = Return null.
Proof.
  apply (unparsable_array_is_null 0 "uint256]" []); reflexivity.
Defined.

Lemma struct_match_space s : forall m,
  struct_match s = Some m -> contains " " s = true.
Proof.
  induction s as [|a s IH]; intros m; cbn [struct_match].
  - cbn. discriminate.
  - destruct (starts_with "struct " (String a s)) eqn:Hstart.
    + intros _. clear IH.
      assert (H : forall p t, starts_with p t = true -> contains " " p = true ->
                              contains " " t = true).
      { clear. induction p as [|b p IHp]; intros t Hp Hc; [discriminate|].
        destruct t as [|c t]; [discriminate|].
        cbn [starts_with] in Hp. apply andb_true_iff in Hp as [Hbc Hp].
        apply Ascii.eqb_eq in Hbc as <-.
        cbn [contains] in *. destruct (Ascii.eqb b " "); [reflexivity|].
        now apply IHp. }
      now apply (H "struct ").
    + intros H. cbn [contains]. destruct (Ascii.eqb a " "); [reflexivity|].
      now apply (IH m).
Qed.

(** X7.  A type string without a space that classifies as [struct] (the bare
    keyword, with or without digits) does not match the struct pattern, which
    asks for a space after the keyword: the result is [null]. *)
Theorem nameless_struct_is_null (fuel : nat) (type : string)
    (st : stateDefinitions) :
  DecodeInfo.typeClass type = "struct" -> contains " " type = false ->
  DecodeInfo.parseType (S fuel) type st = Return null.
Proof.
  intros Hclass Hspace. rewrite (parseType_struct _ _ _ Hclass).
  unfold DecodeInfo.Struct.
  destruct (struct_match type) as [m|] eqn:Hmatch; [|reflexivity].
  rewrite (struct_match_space _ _ Hmatch) in Hspace. discriminate.
Qed.

Lemma nameless_struct_is_null_witness :
  DecodeInfo.parseType 1 "struct" sample_table = Return null.
Proof.
  apply (nameless_struct_is_null 0 "struct" sample_table); reflexivity.
Defined.

(** X8.  An array resolves to [null] exactly when its element does, and it
    throws when its element throws. *)
Theorem array_fails_with_its_element (fuel : nat) (T N location : string)
    (st : stateDefinitions) :
  one_line T = true -> size_token N = true -> In location locations ->
  let type := T ++ "[" ++ N ++ "]" ++ location in
  (DecodeInfo.parseType (S fuel) type st = Return null
   <-> DecodeInfo.parseType fuel T st = Return null)
  /\ (DecodeInfo.parseType fuel T st = TypeError ->
      DecodeInfo.parseType (S fuel) type st = TypeError).
Proof.
  intros HT HN Hq type.
  assert (Hclose : contains "]" type = true)
    by (apply (array_match_contains _ (T, N)); now apply array_match_shape).
  rewrite (parseType_array _ _ _ Hclose). unfold DecodeInfo.Array.
  unfold type. rewrite (array_match_shape _ _ _ HT HN Hq).
  destruct (DecodeInfo.parseType fuel T st) as [u| |]; cbn [bind].
  - split; [|discriminate]. split.
    + destruct u; try reflexivity;
        match goal with
        | |- bind ?m _ = _ -> _ =>
            destruct m as [slots| |]; cbn [bind]; discriminate
        end.
    + now intros [= ->].
  - split; [split; discriminate | reflexivity].
  - split; [split; discriminate | discriminate].
Qed.

Lemma array_fails_with_its_element_witness :
  DecodeInfo.parseType 2 "enum Missing[3]" sample_table = Return null.
Proof.
  destruct (array_fails_with_its_element 1 "enum Missing" "3" "" sample_table
              eq_refl eq_refl (or_introl eq_refl)) as [[_ Hnull] _].
  apply Hnull. reflexivity.
Defined.

(** *** Recursion depth *)

Lemma array_match_here_shorter r : forall m1 m2,
  array_match_here r = Some (m1, m2) ->
  (String.length m1 < String.length r)%nat.
Proof.
  induction r as [|a r IH]; intros m1 m2; [discriminate|].
  cbn [array_match_here].
  assert (Hempty :
    (if Ascii.eqb a "["
     then option_map (fun m => (EmptyString, m)) (lazy_until_bracket r)
     else None) = Some (m1, m2) ->
    (String.length m1 < String.length (String a r))%nat).
  { destruct (Ascii.eqb a "["); [|discriminate].
    destruct (lazy_until_bracket r); [|discriminate].
    intros [= <- _]. cbn. lia. }
  destruct (is_line_terminator a); [exact Hempty|].
  destruct (array_match_here r) as [[e sz]|]; [|exact Hempty].
  intros [= <- <-]. specialize (IH e sz eq_refl). cbn. lia.
Qed.

Lemma array_match_shorter s : forall m1 m2,
  array_match s = Some (m1, m2) ->
  (String.length m1 < String.length s)%nat.
Proof.
  induction s as [|a s IH]; intros m1 m2.
  - discriminate.
  - cbn [array_match].
    destruct (array_match_here (String a s)) as [[e sz]|] eqn:E.
    + intros [= <- <-]. now apply (array_match_here_shorter _ _ _ E).
    + intros H. specialize (IH _ _ H). cbn. lia.
Qed.

Lemma each_declaration_struct_free rec typeName st decs :
  struct_free decs ->
  DecodeInfo.each_declaration rec typeName st decs
  = Return (Some {| DecodeInfo.members := []; DecodeInfo.membersBytes := #0 |}).
Proof.
  induction 1 as [|dec rest Hdec _ IH]; [reflexivity|].
  cbn [DecodeInfo.each_declaration]. unfold DecodeInfo.names_struct.
  destruct (String.eqb_spec (name dec) "StructDefinition") as [E|_];
    [contradiction|]. exact IH.
Qed.

(** X9.  Against a table without struct declarations the resolver always
    comes to an end: the only other recursion is that of arrays, on an
    element string that is shorter than the array's, so a depth of one more
    than the length of the type string is never exhausted. *)
Theorem resolution_ends_without_structs (st : stateDefinitions) :
  struct_free st ->
  forall fuel type,
    (String.length type < fuel)%nat ->
    DecodeInfo.parseType fuel type st <> OutOfFuel.
Proof.
  intros Hst. induction fuel as [|fuel IH]; intros type Hlen; [lia|].
  cbn [DecodeInfo.parseType].
  unfold DecodeInfo.get, DecodeInfo.decodeInfos, DecodeInfo.Object_prototype.
  cbn [DecodeInfo.lookup].
  each_key; try discriminate.
  - unfold DecodeInfo.Array.
    destruct (array_match type) as [[match1 match2]|] eqn:Hmatch; [|discriminate].
    pose proof (array_match_shorter _ _ _ Hmatch) as Hshort.
    specialize (IH match1 ltac:(lia)).
    destruct (DecodeInfo.parseType fuel match1 st) as [u| |]; cbn [bind];
      [|discriminate|contradiction].
    destruct u; try discriminate;
      destruct (String.eqb match2 ""); cbn; try discriminate;
      repeat match goal with
      | |- context [if ?b then _ else _] => destruct b
      end; cbn; discriminate.
  - unfold DecodeInfo.Struct, DecodeInfo.getStructMembers.
    destruct (struct_match type); [|discriminate].
    rewrite (each_declaration_struct_free _ _ _ _ Hst). discriminate.
Qed.

Lemma resolution_ends_without_structs_witness :
  DecodeInfo.parseType 40 "enum Color[3][] storage ref" [Color; Wide] <> OutOfFuel.
Proof.
  apply (resolution_ends_without_structs [Color; Wide]).
  - unfold struct_free. repeat constructor; discriminate.
  - cbn. lia.
Defined.

Lemma parseType_agrees fuel fuel' type st o v :
  DecodeInfo.parseType fuel type st = o -> o <> OutOfFuel ->
  DecodeInfo.parseType fuel' type st = Return v ->
  o = Return v.
Proof.
  intros Ho Hne Hv.
  pose proof (parseType_fuel_le fuel (Nat.max fuel fuel') type st o
                (Nat.le_max_l _ _) Ho Hne) as H1.
  pose proof (parseType_fuel_le fuel' (Nat.max fuel fuel') type st (Return v)
                (Nat.le_max_r _ _) Hv ltac:(discriminate)) as H2.
  congruence.
Qed.

Lemma each_member_diverges fuel fuel0 st before resolved :
  Forall2 (resolves (DecodeInfo.parseType fuel0) st) before resolved ->
  forall member after type members storageBytes,
  DecodeInfo.member_type member = Return type ->
  DecodeInfo.parseType fuel type st = OutOfFuel ->
  DecodeInfo.each_member (DecodeInfo.parseType fuel) st
    (before ++ member :: after) members storageBytes = OutOfFuel.
Proof.
  induction 1 as [|m0 v0 rest vs (type0 & Htype0 & Hrec0 & Htruthy0) _ IH];
    intros member after type members storageBytes Htype Hrec.
  - cbn [app DecodeInfo.each_member]. rewrite Htype. cbn [bind]. now rewrite Hrec.
  - cbn [app DecodeInfo.each_member]. rewrite Htype0. cbn [bind].
    destruct (DecodeInfo.parseType fuel type0 st) as [v| |] eqn:E; cbn [bind];
      [|pose proof (parseType_agrees _ _ _ _ _ _ E ltac:(discriminate) Hrec0);
        discriminate | reflexivity].
    pose proof (parseType_agrees _ _ _ _ _ _ E ltac:(discriminate) Hrec0) as [= ->].
    rewrite Htruthy0, (storageBytes_of_truthy _ Htruthy0). cbn [bind].
    now apply (IH member after type).
Qed.

(** X10.  A struct that has a member of its own type never resolves: when
    the members declared before that one resolve, every depth of recursion is
    exhausted, whatever the qualifier of the type string. *)
Theorem self_containing_struct_never_resolves (Name location : string)
    (st : stateDefinitions) (dec : node) (before after : list node)
    (member : node) (fuel0 : nat) (resolved : list value) :
  plain_name Name = true ->
  In location locations ->
  declares_struct Name st dec ->
  children dec = (before ++ member :: after)%list ->
  Forall2 (resolves (DecodeInfo.parseType fuel0) st) before resolved ->
  DecodeInfo.member_type member = Return ("struct " ++ Name ++ location) ->
  forall fuel location',
    In location' locations ->
    DecodeInfo.parseType fuel ("struct " ++ Name ++ location') st = OutOfFuel.
Proof.
  intros HName Hq Hdec Hchildren Hbefore Hmember.
  induction fuel as [|fuel IH]; intros q' Hq'; [reflexivity|].
  rewrite (parseType_struct _ _ _ (typeClass_struct_name _ _ HName Hq')).
  rewrite (Struct_declared _ _ _ _ _ (struct_match_name _ _ HName Hq') Hdec).
  rewrite Hchildren.
  now rewrite (each_member_diverges fuel fuel0 st _ _ Hbefore member after _ [] #0
                 Hmember (IH _ Hq)).
Qed.

Lemma self_containing_struct_never_resolves_witness :
  DecodeInfo.parseType 50 "struct Chain memory" [Color; Chain] = OutOfFuel.
Proof.
  apply (self_containing_struct_never_resolves "Chain" " storage ref"
           [Color; Chain] Chain [member_of "head" "uint256"] []
           (member_of "tail" "struct Chain storage ref") 1
           [descriptor {| storageSlots := #1; storageBytes := #32;
                          typeName := "uint"; more := Plain |}]).
  - reflexivity.
  - right. now left.
  - apply declares_later; [reflexivity|]. apply declares_here. reflexivity.
  - reflexivity.
  - constructor; [exists "uint256"; repeat split | constructor].
  - reflexivity.
  - do 3 right. now left.
Defined.

(** *** Slot arithmetic *)

Lemma total_of_full_slots resolved : forall (total : Z),
  Forall (fun v => bytes_of v = #32) resolved ->
  fold_left (fun total m => total + bytes_of m) resolved #total
  = #(total + 32 * Z.of_nat (List.length resolved)).
Proof.
  induction resolved as [|v vs IH]; intros total Hall.
  - cbn. f_equal. lia.
  - inversion Hall as [|? ? Hv Hvs]; subst. cbn [fold_left List.length].
    rewrite Hv, add_of_Z, (IH _ Hvs). f_equal. lia.
Qed.

Lemma ceil_of_slots (k : Z) : ceil (#(32 * k) / #32) = #k.
Proof.
  unfold div, of_Z. change (Qzero (inject_Z 32)) with false. cbv iota.
  unfold fin, ceil, of_Z. f_equal. f_equal.
  transitivity (Qceiling (inject_Z k)); [|apply Qceiling_Z].
  apply Qceiling_comp.
  rewrite Qred_correct, inject_Z_mult, Qmult_comm.
  apply Qdiv_mult_l. discriminate.
Qed.

(** X11.  A struct whose members each report 32 [storageBytes] - as every
    array, struct, [bytes], [string] and 256-bit integer member does - is
    given one slot per member, whatever the members' own [storageSlots]: a
    member that is an array of three slots counts for one. *)
Theorem struct_of_full_slot_members (fuel : nat) (Name location : string)
    (st : stateDefinitions) (dec : node) (resolved : list value) :
  plain_name Name = true ->
  In location locations ->
  declares_struct Name st dec ->
  Forall2 (resolves (DecodeInfo.parseType fuel) st) (children dec) resolved ->
  Forall (fun v => bytes_of v = #32) resolved ->
  DecodeInfo.parseType (S fuel) ("struct " ++ Name ++ location) st
  = Return (descriptor {|
      storageSlots := of_nat (List.length (children dec));
      storageBytes := #32;
      typeName := "struct";
      more := OfStruct resolved |}).
Proof.
  intros HName Hq Hdec Hresolved Hfull.
  rewrite (Struct_resolved fuel _ Name st dec resolved
             (typeClass_struct_name _ _ HName Hq)
             (struct_match_name _ _ HName Hq) Hdec Hresolved).
  unfold totalMemberBytes. rewrite (total_of_full_slots _ 0 Hfull).
  cbn [Z.add]. rewrite ceil_of_slots.
  now rewrite (Forall2_length Hresolved).
Qed.

Lemma struct_of_full_slot_members_witness :
  DecodeInfo.parseType 3 "struct Holder" [Holder]
  = Return (descriptor {|
      storageSlots := #2; storageBytes := #32; typeName := "struct";
      more := OfStruct
        [descriptor {| storageSlots := #3; storageBytes := #32; typeName := "array";
                       more := OfArray (sized #3)
                         (descriptor {| storageSlots := #1; storageBytes := #32;
                                        typeName := "uint"; more := Plain |}) |};
         descriptor {| storageSlots := #1; storageBytes := #32;
                       typeName := "string"; more := Plain |}] |}).
Proof.
  apply (struct_of_full_slot_members 2 "Holder" "" [Holder] Holder).
  - reflexivity.
  - now left.
  - apply declares_here. reflexivity.
  - constructor; [exists "uint256[3]"; repeat split|].
    constructor; [exists "string"; repeat split|]. constructor.
  - repeat constructor.
Defined.

Lemma size_token_decimal n : size_token (decimal n) = true.
Proof.
  unfold decimal. induction (Nat.to_uint n); cbn [DecimalString.NilEmpty.string_of_uint size_token];
    [reflexivity|..]; exact IHu.
Qed.

Lemma decimal_not_empty n : String.eqb (decimal n) "" = false.
Proof.
  unfold decimal. pose proof (to_uint_nonnil n) as H.
  destruct (Nat.to_uint n); [contradiction|..]; reflexivity.
Qed.

Lemma parseInt_decimal_alone n : parseInt (decimal n) = of_nat n.
Proof.
  rewrite <- (append_empty (decimal n)). now apply parseInt_decimal.
Qed.

(** X12.  Packing is tight: for an element narrower than a slot ([0 < b <
    32]) the array of [n] elements ([n] below 2^53) is given the least number
    of slots whose capacity, [floor (32 / b)] items each, holds all [n]
    items. *)
Theorem packed_array_capacity (fuel n : nat) (T location : string)
    (st : stateDefinitions) (element : decodeInfo value) (b : Q) :
  safe_integer n ->
  one_line T = true ->
  In location locations ->
  DecodeInfo.parseType fuel T st = Return (descriptor element) ->
  storageBytes element = Finite b ->
  (0 < b)%Q -> (b < 32)%Q ->
  exists perSlot slots : Z,
    floor (#32 / storageBytes element) = #perSlot
    /\ DecodeInfo.parseType (S fuel) (T ++ "[" ++ decimal n ++ "]" ++ location) st
       = Return (descriptor {|
           storageSlots := #slots;
           storageBytes := #32;
           typeName := "array";
           more := OfArray (sized (of_nat n)) (descriptor element) |})
    /\ (1 <= perSlot)%Z
    /\ ((slots - 1) * perSlot < Z.of_nat n <= slots * perSlot)%Z.
Proof.
  intros _ HT Hq Helement Hb Hpos Hlt.
  pose proof (Array_matched fuel _ T (decimal n) st element
                (array_match_shape _ _ _ HT (size_token_decimal n) Hq) Helement) as H.
  cbv zeta in H. rewrite decimal_not_empty, parseInt_decimal_alone, Hb in H.
  assert (Hlt' : (Finite b <? #32) = true) by (apply lt_Finite_true; exact Hlt).
  rewrite Hlt' in H.
  assert (Hdiv : #32 / Finite b = Finite (Qred (32 / b))).
  { unfold div, of_Z. now rewrite Qzero_false by lra. }
  rewrite Hdiv in H. cbn [floor] in H.
  set (k := Qfloor (Qred (32 / b))) in *.
  assert (Hk : (1 <= k)%Z).
  { unfold k. rewrite <- (Qfloor_Z 1). apply Qfloor_resp_le.
    rewrite Qred_correct. apply Qle_shift_div_l; [exact Hpos|].
    change (inject_Z 1) with 1%Q. lra. }
  assert (HkQ : (1 <= inject_Z k)%Q).
  { change 1%Q with (inject_Z 1). now rewrite <- Zle_Qle. }
  assert (Hquot : of_nat n / #k = Finite (Qred (inject_Z (Z.of_nat n) / inject_Z k))).
  { unfold div, of_nat, of_Z. now rewrite Qzero_false by lra. }
  rewrite Hquot in H. cbn [ceil] in H.
  set (x := Qred (inject_Z (Z.of_nat n) / inject_Z k)) in *.
  exists k, (Qceiling x).
  split; [now rewrite Hb, Hdiv|]. split; [exact H|]. split; [exact Hk|].
  assert (Hx : (x * inject_Z k == inject_Z (Z.of_nat n))%Q).
  { unfold x. rewrite Qred_correct, Qmult_comm. apply Qmult_div_r. lra. }
  pose proof (Qceiling_lt x) as Hlow. pose proof (Qle_ceiling x) as Hup.
  rewrite Z.sub_1_r, <- Z.sub_1_r in Hlow.
  split.
  - rewrite Zlt_Qlt, inject_Z_mult, <- Hx.
    apply Qmult_lt_compat_r; [lra | exact Hlow].
  - rewrite Zle_Qle, inject_Z_mult, <- Hx.
    apply Qmult_le_compat_r; [exact Hup | lra].
Qed.

Lemma packed_array_capacity_witness :
  exists perSlot slots : Z,
    DecodeInfo.parseType 2 "uint128[3]" []
    = Return (descriptor {| storageSlots := #slots; storageBytes := #32;
                            typeName := "array";
                            more := OfArray (sized #3) uint128_descriptor |})
    /\ ((slots - 1) * perSlot < 3 <= slots * perSlot)%Z.
Proof.
  destruct (packed_array_capacity 1 3 "uint128" "" []
              {| storageSlots := #1; storageBytes := #16;
                 typeName := "uint"; more := Plain |} 16
              eq_refl eq_refl (or_introl eq_refl) eq_refl eq_refl eq_refl eq_refl)
    as (perSlot & slots & _ & Hrun & _ & Hbounds).
  exists perSlot, slots. split; [exact Hrun | exact Hbounds].
Defined.

(** X13.  An enum descriptor's [storageBytes] is at most [k] exactly when
    the enum declares at most [256 ^ k] values: up to 256 values take at
    most one byte, up to 65536 at most two. *)
Theorem enum_width_bound (type : string) (st : stateDefinitions)
    (enumDef : node) :
  DecodeInfo.getEnum type st = Some enumDef ->
  exists width : Z,
    DecodeInfo.Enum type st
    = descriptor {| storageSlots := #1; storageBytes := #width;
                    typeName := "enum"; more := OfEnum enumDef |}
    /\ (0 <= width)%Z
    /\ forall k : Z, (0 <= k)%Z ->
         ((width <= k)%Z
          <-> (Z.of_nat (List.length (children enumDef)) <= 256 ^ k)%Z).
Proof.
  intros Hfound. set (n := List.length (children enumDef)).
  exists (bytes_for n).
  split; [unfold DecodeInfo.Enum; rewrite Hfound; fold n;
          now rewrite while_length_bytes_for|].
  split; [apply bytes_for_nonneg|].
  intros k Hk. split.
  - intros Hle. eapply Z.le_trans; [apply bytes_for_upper|].
    apply Z.pow_le_mono_r; lia.
  - intros Hn. destruct (Z_le_gt_dec (bytes_for n) k) as [Hle|Hgt]; [exact Hle|].
    pose proof (bytes_for_lower n (bytes_for n - 1) ltac:(lia) ltac:(lia)) as Hlow.
    assert (256 ^ k <= 256 ^ (bytes_for n - 1))%Z by (apply Z.pow_le_mono_r; lia).
    lia.
Qed.

Lemma enum_width_bound_witness :
  exists width : Z,
    DecodeInfo.Enum "enum Wide" sample_table
    = descriptor {| storageSlots := #1; storageBytes := #width;
                    typeName := "enum"; more := OfEnum Wide |}
    /\ ((width <= 2)%Z <-> (Z.of_nat (List.length (children Wide)) <= 256 ^ 2)%Z).
Proof.
  destruct (enum_width_bound "enum Wide" sample_table Wide eq_refl)
    as (width & HEnum & _ & Hbound).
  exists width. split; [exact HEnum|]. apply Hbound. discriminate.
Defined.

(** *** Qualifiers and nesting *)

(** X14.  The qualifier at the end of an array or of a struct type string
    ([storage ref], [storage pointer], [memory], [calldata] or none) has no
    part in the resolution: any two qualifiers give the same outcome. *)
Theorem location_is_irrelevant (fuel : nat) (location location' : string)
    (st : stateDefinitions) :
  In location locations -> In location' locations ->
  (forall Name, plain_name Name = true ->
     DecodeInfo.parseType (S fuel) ("struct " ++ Name ++ location) st
     = DecodeInfo.parseType (S fuel) ("struct " ++ Name ++ location') st)
  /\ (forall T N, one_line T = true -> size_token N = true ->
        DecodeInfo.parseType (S fuel) (T ++ "[" ++ N ++ "]" ++ location) st
        = DecodeInfo.parseType (S fuel) (T ++ "[" ++ N ++ "]" ++ location') st).
Proof.
  intros Hq Hq'. split.
  - intros Name HName.
    rewrite !parseType_struct by now apply typeClass_struct_name.
    unfold DecodeInfo.Struct. now rewrite !struct_match_name.
  - intros T N HT HN.
    rewrite !parseType_array
      by (apply (array_match_contains _ (T, N)); now apply array_match_shape).
    unfold DecodeInfo.Array. now rewrite !array_match_shape.
Qed.

Lemma location_is_irrelevant_witness :
  DecodeInfo.parseType 3 "struct Pair[2] storage ref" sample_table
  = DecodeInfo.parseType 3 "struct Pair[2] memory" sample_table.
Proof.
  destruct (location_is_irrelevant 2 " storage ref" " memory" sample_table)
    as [_ Harray].
  - right. now left.
  - do 3 right. now left.
  - apply (Harray "struct Pair" "2"); reflexivity.
Defined.



